(** * dxf_report_generator: geometry measurement, quantity resolution, pricing

    A shallow embedding of the computational core of
    [dxf_report_generator.py]:

    - [extract_quantity_from_filename] (with the pieces of the Python
      library it calls: [os.path.splitext], [str.rsplit], [str.isdigit],
      [int]);
    - the per-entity length functions and [calculate_total_length];
    - [get_entity_vertices] and [calculate_bounding_box_area];
    - the pricing loop of [create_pdf];
    - the loop of [process_files] over the listing of a directory, with
      the answers of its collaborators ([ezdxf.readfile], rendering) given
      for each file.

    Conventions.

    - A Python [float] is idealised as a real number ([R]); rounding,
      overflow, infinities and NaN are outside the model.  [math.hypot],
      [math.pi], [math.radians], [math.cos], [math.sin], [min], [max] are
      their real counterparts.
    - A Python [str] is a list of characters; a character is a code point
      of the range U+0000..U+00FF, carried by [ascii].  Strings with other
      code points are outside the model, and every statement on strings is
      a statement on the strings of this range.
    - The points of the attributes [dxf.start], [dxf.end], [dxf.center] and
      of [approximate] are [Vec3] objects of ezdxf: indexed by an integer,
      and raising [TypeError] on a slice.  The points of [get_points()]
      are tuples.
    - A Python exception is a value [Raise e] of the error monad [res]. *)

From Stdlib Require Import Reals Lra Lia ZArith List String Ascii Bool.
From Stdlib Require Import Permutation.
Import ListNotations.

(** ** Exceptions *)

Inductive exn : Type :=
| AttributeError
| IndexError
| TypeError
| ValueError.

Inductive res (A : Type) : Type :=
| Ok (a : A)
| Raise (e : exn).

Arguments Ok {A} a.
Arguments Raise {A} e.

Definition bind {A B : Type} (m : res A) (k : A -> res B) : res B :=
  match m with
  | Ok a => k a
  | Raise e => Raise e
  end.

Notation "x <- m ;; k" := (bind m (fun x => k))
  (at level 61, m at next level, right associativity).

(** ** Python strings *)

Module PyStr.

Definition pystr : Type := list ascii.

(** A literal. *)
Definition str (s : string) : pystr := list_ascii_of_string s.

Open Scope Z_scope.

(** [s.rfind(c)] for a one-character [c]: the highest index holding [c],
    or [-1]. *)
Fixpoint rfind_from (c : ascii) (s : pystr) (i best : Z) : Z :=
  match s with
  | [] => best
  | a :: s' => rfind_from c s' (i + 1) (if Ascii.eqb a c then i else best)
  end.

Definition rfind (c : ascii) (s : pystr) : Z := rfind_from c s 0 (-1).

(** [s[:i]] and [s[i:]] for [0 <= i]. *)
Definition slice_to (s : pystr) (i : Z) : pystr := firstn (Z.to_nat i) s.
Definition slice_from (s : pystr) (i : Z) : pystr := skipn (Z.to_nat i) s.

(** [s[i:i+1] != c] *)
Definition char_differs (s : pystr) (i : Z) (c : ascii) : bool :=
  match nth_error s (Z.to_nat i) with
  | Some a => negb (Ascii.eqb a c)
  | None => true
  end.

(** The [while filenameIndex < dotIndex] loop of [genericpath._splitext]:
    [true] when some character at an index of [i, i+n) is not [extsep]
    (the loop then returns the split), [false] when the loop runs out. *)
Fixpoint has_non_dot (s : pystr) (extsep : ascii) (n : nat) (i : Z) : bool :=
  match n with
  | O => false
  | S n' => if char_differs s i extsep then true
            else has_non_dot s extsep n' (i + 1)
  end.

(** [genericpath._splitext(p, sep, altsep, extsep)] *)
Definition genericpath_splitext (p : pystr) (sep : ascii)
    (altsep : option ascii) (extsep : ascii) : pystr * pystr :=
  let sepIndex := rfind sep p in
  let sepIndex := match altsep with
                  | Some a => Z.max sepIndex (rfind a p)
                  | None => sepIndex
                  end in
  let dotIndex := rfind extsep p in
  if (sepIndex <? dotIndex)
     && has_non_dot p extsep (Z.to_nat (dotIndex - (sepIndex + 1))) (sepIndex + 1)
  then (slice_to p dotIndex, slice_from p dotIndex)
  else (p, []).

(** [os.path] is [posixpath] or [ntpath]. *)
Inductive platform : Type := Posix | Nt.

Definition os_path_splitext (pf : platform) (p : pystr) : pystr * pystr :=
  match pf with
  | Posix => genericpath_splitext p "/"%char None "."%char
  | Nt => genericpath_splitext p "\"%char (Some "/"%char) "."%char
  end.

(** [s.rsplit(c, 1)]: one split, at the last [c]. *)
Definition rsplit1 (c : ascii) (s : pystr) : list pystr :=
  let i := rfind c s in
  if i <? 0 then [s] else [slice_to s i; slice_from s (i + 1)].

(** The characters of U+0000..U+00FF on which [str.isdigit] holds: the
    decimal digits, and the superscripts U+00B2, U+00B3, U+00B9. *)
Definition is_decimal_char (a : ascii) : bool :=
  let n := Z.of_nat (nat_of_ascii a) in (48 <=? n) && (n <=? 57).

Definition is_superscript_digit (a : ascii) : bool :=
  let n := Z.of_nat (nat_of_ascii a) in
  (n =? 178) || (n =? 179) || (n =? 185).

Definition is_digit_char (a : ascii) : bool :=
  is_decimal_char a || is_superscript_digit a.

(** [s.isdigit()]: at least one character, and all of them digits. *)
Definition isdigit (s : pystr) : bool :=
  match s with
  | [] => false
  | _ => forallb is_digit_char s
  end.

(** [s.isdecimal()], which the source does not call; the spec's
    "composed entirely of decimal digits". *)
Definition isdecimal (s : pystr) : bool :=
  match s with
  | [] => false
  | _ => forallb is_decimal_char s
  end.

Definition digit_value (a : ascii) : Z := Z.of_nat (nat_of_ascii a) - 48.

Definition decimal_value (s : pystr) : Z :=
  fold_left (fun acc a => 10 * acc + digit_value a) s 0.

(** [sys.int_max_str_digits], at its default: [int] refuses a string of
    more digits, leading zeros included. *)
Definition int_max_str_digits : Z := 4300.

(** [int(s)] on a string without sign, blank or underscore (all that
    reaches it here, past [isdigit]): the decimal value when every
    character is a decimal digit and there are at most
    [int_max_str_digits] of them, [ValueError] otherwise. *)
Definition int (s : pystr) : res Z :=
  if isdecimal s then
    if Z.of_nat (List.length s) <=? int_max_str_digits
    then Ok (decimal_value s)
    else Raise ValueError
  else Raise ValueError.


End PyStr.

(** ** Filename quantity resolver *)

Module Resolver.
Import PyStr.
Open Scope Z_scope.

(** [extract_quantity_from_filename(filename)] *)
Definition extract_quantity_from_filename (pf : platform) (filename : pystr)
    : res Z :=
  let base_name := fst (os_path_splitext pf filename) in
  let parts := rsplit1 "_"%char base_name in
  match parts with
  | [_; p1] => if isdigit p1 then int p1 else Ok 1
  | _ => Ok 1
  end.

(** The segment after the last underscore of the stem, if the stem has an
    underscore. *)
Definition trailing_segment (pf : platform) (name : pystr) : option pystr :=
  let stem := fst (os_path_splitext pf name) in
  let i := rfind "_"%char stem in
  if i <? 0 then None else Some (slice_from stem (i + 1)).

(** The contract of the specification, in its words: strip the extension,
    split the stem on the last underscore, parse the trailing segment when
    it is composed entirely of decimal digits, otherwise 1. *)
Definition resolve_quantity_spec (pf : platform) (name : pystr) : Z :=
  match trailing_segment pf name with
  | Some trailing =>
      if isdecimal trailing then decimal_value trailing else 1
  | None => 1
  end.

End Resolver.

(** ** Geometry kernel *)

Module Geometry.
Open Scope R_scope.

(** A point is indexable; only its first two coordinates are read. *)
Definition Point : Type := (R * R)%type.

(** [math.hypot], [math.radians] *)
Definition hypot (x y : R) : R := sqrt (x * x + y * y).
Definition radians (deg : R) : R := deg * (PI / 180).

(** An entity of the modelspace, as the program sees it: the string
    [dxftype()] returns, and the attributes and methods the program reads,
    each of which is absent ([None]) on an entity that does not have it;
    reading an absent one raises.  [approximate] is the result of
    [approximate(segments=100)]. *)
Record Entity : Type := mkEntity {
  dxftype : string;
  dxf_start : option Point;
  dxf_end : option Point;
  dxf_center : option Point;
  dxf_radius : option R;
  dxf_start_angle : option R;
  dxf_end_angle : option R;
  get_points : option (list Point);
  closed : option bool;
  approximate : option (list Point)
}.

Definition attr {A : Type} (o : option A) : res A :=
  match o with
  | Some a => Ok a
  | None => Raise AttributeError
  end.

(** [v[:2]] on a [Vec3]: slicing is not supported. *)
Definition vec3_slice (v : Point) : res Point := Raise TypeError.

(** [l[0]] and [l[-1]] *)
Definition index_first {A : Type} (l : list A) : res A :=
  match l with
  | [] => Raise IndexError
  | a :: _ => Ok a
  end.

Definition index_last {A : Type} (l : list A) : res A :=
  match l with
  | [] => Raise IndexError
  | a :: l' => Ok (last l' a)
  end.

(** [calculate_line_length(entity)] *)
Definition calculate_line_length (entity : Entity) : res R :=
  start <- attr (dxf_start entity) ;;
  end_ <- attr (dxf_end entity) ;;
  Ok (hypot (fst end_ - fst start) (snd end_ - snd start)).

(** The loop [for i in range(len(points) - 1): length += hypot(...)],
    entered with the accumulator [length]. *)
Fixpoint segments_length (length : R) (points : list Point) : R :=
  match points with
  | start :: ((end_ :: _) as rest) =>
      segments_length
        (length + hypot (fst end_ - fst start) (snd end_ - snd start)) rest
  | _ => length
  end.

(** [calculate_polyline_length(entity)] *)
Definition calculate_polyline_length (entity : Entity) : res R :=
  points <- attr (get_points entity) ;;
  let length := segments_length 0 points in
  is_closed <- attr (closed entity) ;;
  if (is_closed : bool) then
    start <- index_last points ;;
    end_ <- index_first points ;;
    Ok (length + hypot (fst end_ - fst start) (snd end_ - snd start))
  else Ok length.

(** [calculate_circle_length(entity)] *)
Definition calculate_circle_length (entity : Entity) : res R :=
  radius <- attr (dxf_radius entity) ;;
  Ok (2 * PI * radius).

(** [calculate_arc_length(entity)] *)
Definition calculate_arc_length (entity : Entity) : res R :=
  radius <- attr (dxf_radius entity) ;;
  sa <- attr (dxf_start_angle entity) ;;
  let start_angle := radians sa in
  ea <- attr (dxf_end_angle entity) ;;
  let end_angle := radians ea in
  let angle := end_angle - start_angle in
  let angle := if Rlt_dec angle 0 then angle + 2 * PI else angle in
  Ok (radius * angle).

(** [calculate_spline_length(entity)] *)
Definition calculate_spline_length (entity : Entity) : res R :=
  spline_points <- attr (approximate entity) ;;
  Ok (segments_length 0 spline_points).

(** The body of the [try] of [calculate_total_length], up to the
    assignment of [length]. *)
Definition entity_length (entity : Entity) : res R :=
  let t := dxftype entity in
  if String.eqb t "LINE" then calculate_line_length entity
  else if String.eqb t "LWPOLYLINE" || String.eqb t "POLYLINE"
  then calculate_polyline_length entity
  else if String.eqb t "CIRCLE" then calculate_circle_length entity
  else if String.eqb t "ARC" then calculate_arc_length entity
  else if String.eqb t "SPLINE" then calculate_spline_length entity
  else Ok 0.

(** [get_entity_vertices(entity)] *)
Definition get_entity_vertices (entity : Entity) : res (list Point) :=
  let t := dxftype entity in
  if String.eqb t "LINE" then
    start <- attr (dxf_start entity) ;;
    start2 <- vec3_slice start ;;
    end_ <- attr (dxf_end entity) ;;
    end2 <- vec3_slice end_ ;;
    Ok [start2; end2]
  else if String.eqb t "LWPOLYLINE" || String.eqb t "POLYLINE" then
    points <- attr (get_points entity) ;;
    Ok points
  else if String.eqb t "CIRCLE" then
    center <- attr (dxf_center entity) ;;
    radius <- attr (dxf_radius entity) ;;
    Ok [ (fst center - radius, snd center);
         (fst center + radius, snd center);
         (fst center, snd center - radius);
         (fst center, snd center + radius) ]
  else if String.eqb t "ARC" then
    center <- attr (dxf_center entity) ;;
    radius <- attr (dxf_radius entity) ;;
    sa <- attr (dxf_start_angle entity) ;;
    let start_angle := radians sa in
    ea <- attr (dxf_end_angle entity) ;;
    let end_angle := radians ea in
    Ok [ (fst center + radius * cos start_angle,
          snd center + radius * sin start_angle);
         (fst center + radius * cos end_angle,
          snd center + radius * sin end_angle) ]
  else if String.eqb t "SPLINE" then
    spline_points <- attr (approximate entity) ;;
    Ok spline_points
  else Ok [].



Definition Line (s e : Point) : Entity :=
  mkEntity "LINE" (Some s) (Some e) None None None None None None None.

Definition LwPolyline (pts : list Point) (c : bool) : Entity :=
  mkEntity "LWPOLYLINE" None None None None None None (Some pts) (Some c) None.

Definition Circle (c : Point) (r : R) : Entity :=
  mkEntity "CIRCLE" None None (Some c) (Some r) None None None None None.

Definition Arc (c : Point) (r sa ea : R) : Entity :=
  mkEntity "ARC" None None (Some c) (Some r) (Some sa) (Some ea) None None None.

(** The words of the specification. *)

(** Euclidean distance between two points. *)
Definition dist (p q : Point) : R := hypot (fst q - fst p) (snd q - snd p).

(** The distances between consecutive vertices, in order. *)
Fixpoint consecutive_distances (points : list Point) : list R :=
  match points with
  | p :: ((q :: _) as rest) => dist p q :: consecutive_distances rest
  | _ => []
  end.

(** A sum accumulated from [0], left to right. *)
Definition Rsum (l : list R) : R := fold_left Rplus l 0.

(** The sweep of an arc: the difference of the angles, in radians, with
    [2 * PI] added when it is negative. *)
Definition sweep_angle (start_angle end_angle : R) : R :=
  let d := radians end_angle - radians start_angle in
  if Rlt_dec d 0 then d + 2 * PI else d.

End Geometry.

(** ** Drawing measurer *)

Module Measurer.
Import Geometry.
Open Scope R_scope.

(** [doc.modelspace()], iterated in order. *)
Definition Modelspace : Type := list Entity.

(** One iteration of the loop of [calculate_total_length]: an entity whose
    length raises leaves the total as it is. *)
Definition add_entity_length (total_length : R) (entity : Entity) : R :=
  match entity_length entity with
  | Ok length => total_length + length
  | Raise _ => total_length
  end.

(** [calculate_total_length(doc)] *)
Definition calculate_total_length (msp : Modelspace) : R :=
  fold_left add_entity_length msp 0.

(** The four variables [min_x, min_y, max_x, max_y], [None] at first. *)
Record Bounds : Type := mkBounds {
  min_x : option R;
  min_y : option R;
  max_x : option R;
  max_y : option R
}.

Definition no_bounds : Bounds := mkBounds None None None None.

(** [v if m is None else min(m, v)], and the same with [max] *)
Definition lower (m : option R) (v : R) : option R :=
  Some (match m with None => v | Some m' => Rmin m' v end).

Definition upper (m : option R) (v : R) : option R :=
  Some (match m with None => v | Some m' => Rmax m' v end).

(** The body of [for x, y in vertices] *)
Definition merge_vertex (b : Bounds) (p : Point) : Bounds :=
  let (x, y) := p in
  mkBounds (lower (min_x b) x) (lower (min_y b) y)
           (upper (max_x b) x) (upper (max_y b) y).

(** One iteration of the loop over the entities: an entity whose vertices
    raise leaves the bounds as they are. *)
Definition merge_entity (b : Bounds) (entity : Entity) : Bounds :=
  match get_entity_vertices entity with
  | Ok vertices => fold_left merge_vertex vertices b
  | Raise _ => b
  end.

Definition bounding_box (msp : Modelspace) : Bounds :=
  fold_left merge_entity msp no_bounds.

(** The final [if None not in (...)] *)
Definition bounds_area (b : Bounds) : R :=
  match min_x b, min_y b, max_x b, max_y b with
  | Some mnx, Some mny, Some mxx, Some mxy =>
      let width := mxx - mnx in
      let height := mxy - mny in
      width * height / 1000000
  | _, _, _, _ => 0
  end.

(** [calculate_bounding_box_area(doc)] *)
Definition calculate_bounding_box_area (msp : Modelspace) : R :=
  bounds_area (bounding_box msp).

(** The extent points of a drawing, in the order the loop meets them. *)
Definition extent_points (msp : Modelspace) : list Point :=
  flat_map (fun e => match get_entity_vertices e with
                     | Ok vs => vs
                     | Raise _ => []
                     end) msp.

(** The bounds are unset, or set with each minimum at most its maximum. *)
Inductive ordered : Bounds -> Prop :=
| ordered_unset : ordered no_bounds
| ordered_set (mnx mny mxx mxy : R) :
    mnx <= mxx -> mny <= mxy ->
    ordered (mkBounds (Some mnx) (Some mny) (Some mxx) (Some mxy)).

(** [within b b']: the box [b'] contains the box [b], that is, from [b] to
    [b'] no minimum has increased and no maximum has decreased. *)
Inductive within : Bounds -> Bounds -> Prop :=
| within_unset (b' : Bounds) : within no_bounds b'
| within_set (mnx mny mxx mxy mnx' mny' mxx' mxy' : R) :
    mnx' <= mnx -> mny' <= mny -> mxx <= mxx' -> mxy <= mxy' ->
    within (mkBounds (Some mnx) (Some mny) (Some mxx) (Some mxy))
           (mkBounds (Some mnx') (Some mny') (Some mxx') (Some mxy')).

End Measurer.

(** ** Cost aggregator: the pricing loop of [create_pdf] *)

Module Pricing.
Open Scope R_scope.

(** An element of [data]. *)
Record Item : Type := mkItem {
  filename : PyStr.pystr;
  quantity : Z;
  total_length : R;
  area : R
}.

(** A line of [table_data], before its numbers are formatted. *)
Record Row : Type := mkRow {
  row_item : Item;
  cutting_cost : R;
  material_cost : R;
  total : R
}.

(** The body of [for item in data], on the pair
    [(table_data, grand_total)]. *)
Definition price_item (cost_per_meter cost_per_square_meter : R)
    (st : list Row * R) (item : Item) : list Row * R :=
  let (table_data, grand_total) := st in
  let cutting_cost :=
    (total_length item / 1000) * cost_per_meter * IZR (quantity item) in
  let material_cost :=
    area item * cost_per_square_meter * IZR (quantity item) in
  let total := cutting_cost + material_cost in
  let grand_total := grand_total + total in
  (table_data ++ [mkRow item cutting_cost material_cost total], grand_total).

(** The loop, from [grand_total = 0.0]. *)
Definition price (data : list Item)
    (cost_per_meter cost_per_square_meter : R) : list Row * R :=
  fold_left (price_item cost_per_meter cost_per_square_meter) data ([], 0).

End Pricing.

(** ** Moving a drawing *)

Module Transform.
Import Geometry.
Open Scope R_scope.

(** The point [p] moved by [(dx, dy)]. *)
Definition shift (dx dy : R) (p : Point) : Point := (fst p + dx, snd p + dy).

(** The entity with every point it carries moved by [(dx, dy)]; radius,
    angles, kind and closed flag as they are. *)
Definition translate (dx dy : R) (e : Entity) : Entity :=
  mkEntity (dxftype e)
    (option_map (shift dx dy) (dxf_start e))
    (option_map (shift dx dy) (dxf_end e))
    (option_map (shift dx dy) (dxf_center e))
    (dxf_radius e) (dxf_start_angle e) (dxf_end_angle e)
    (option_map (map (shift dx dy)) (get_points e))
    (closed e)
    (option_map (map (shift dx dy)) (approximate e)).

(** The bounds moved by [(dx, dy)]. *)
Definition shift_bounds (dx dy : R) (b : Measurer.Bounds) : Measurer.Bounds :=
  Measurer.mkBounds
    (option_map (fun v => v + dx) (Measurer.min_x b))
    (option_map (fun v => v + dy) (Measurer.min_y b))
    (option_map (fun v => v + dx) (Measurer.max_x b))
    (option_map (fun v => v + dy) (Measurer.max_y b)).

End Transform.

(** ** The batch: [process_files] *)

Module Batch.
Import PyStr Resolver Geometry Measurer.

(** [c.lower()] for a character of U+0000..U+00FF: the letters [A]..[Z]
    and U+00C0..U+00DE, the multiplication sign U+00D7 apart, move up by
    32. *)
Definition lower_char (a : ascii) : ascii :=
  let n := nat_of_ascii a in
  if ((65 <=? n) && (n <=? 90)
      || (192 <=? n) && (n <=? 222) && negb (n =? 215))%nat
  then ascii_of_nat (n + 32) else a.

(** [s.lower()] *)
Definition str_lower (s : pystr) : pystr := map lower_char s.

Definition pystr_eqb (s t : pystr) : bool :=
  if list_eq_dec ascii_dec s t then true else false.

(** [s.endswith(suffix)] *)
Definition endswith (s suffix : pystr) : bool :=
  (List.length suffix <=? List.length s)%nat
  && pystr_eqb (skipn (List.length s - List.length suffix) s) suffix.

(** The filter of [dxf_files]: [f.lower().endswith('.dxf')] *)
Definition is_dxf (f : pystr) : bool := endswith (str_lower f) (str ".dxf").

(** An entry of [os.listdir(directory)], with what the collaborators
    answer for it: [ezdxf.readfile] and [doc.modelspace()] (or the
    exception raised), and whether [render_dxf_to_image] succeeds and
    leaves its image. *)
Record File : Type := mkFile {
  file_name : pystr;
  file_doc : res Modelspace;
  file_renders : bool
}.

(** An element of [images]; [img_image_filename] is the last component of
    [image_path]. *)
Record ImageInfo : Type := mkImage {
  img_filename : pystr;
  img_image_filename : pystr;
  img_total_length : R;
  img_quantity : Z;
  img_area : R
}.

(** The variables of the loop of [process_files]. *)
Record State : Type := mkState {
  data : list Pricing.Item;
  images : list ImageInfo;
  processed_files : nat
}.

Definition initial : State := mkState [] [] 0.

(** The [try] block up to [data.append]: [Ok None] is the [continue] on an
    empty modelspace, [Raise] an exception of [ezdxf.readfile] or of
    [extract_quantity_from_filename]. *)
Definition measure_file (pf : platform) (f : File) : res (option Pricing.Item) :=
  msp <- file_doc f ;;
  if (List.length msp =? 0)%nat then Ok None
  else
    let total_length := calculate_total_length msp in
    let area := calculate_bounding_box_area msp in
    quantity <- extract_quantity_from_filename pf (file_name f) ;;
    Ok (Some (Pricing.mkItem (file_name f) quantity total_length area)).

(** One iteration of [for filename in dxf_files].  The [print] calls and
    the updates of the progress label are left out (they are taken not to
    raise). *)
Definition process_file (pf : platform) (st : State) (f : File) : State :=
  match measure_file pf f with
  | Ok (Some item) =>
      let image_filename :=
        (fst (os_path_splitext pf (file_name f)) ++ str ".jpg")%list in
      mkState
        (data st ++ [item])
        (if file_renders f
         then images st
              ++ [mkImage (file_name f) image_filename
                    (Pricing.total_length item) (Pricing.quantity item)
                    (Pricing.area item)]
         else images st)
        (S (processed_files st))
  | Ok None => st
  | Raise _ => st
  end.

(** The loop of [process_files], over the listing of the directory. *)
Definition process_files (pf : platform) (listing : list File) : State :=
  fold_left (process_file pf)
    (filter (fun f => is_dxf (file_name f)) listing) initial.

(** [if images: create_pdf(images, data, ...)]: the table and grand total
    that [create_pdf] computes, when it is called. *)
Definition report (pf : platform) (listing : list File)
    (cost_per_meter cost_per_square_meter : R) : option (list Pricing.Row * R) :=
  let st := process_files pf listing in
  match images st with
  | [] => None
  | _ :: _ => Some (Pricing.price (data st) cost_per_meter cost_per_square_meter)
  end.

(** The row a file contributes, if any. *)
Definition file_item (pf : platform) (f : File) : option Pricing.Item :=
  if is_dxf (file_name f) then
    match measure_file pf f with
    | Ok (Some item) => Some item
    | _ => None
    end
  else None.

(** The element of [images] a file contributes, if any. *)
Definition file_image (pf : platform) (f : File) : option ImageInfo :=
  match file_item pf f with
  | Some item =>
      if file_renders f
      then Some (mkImage (file_name f)
                   (fst (os_path_splitext pf (file_name f)) ++ str ".jpg")%list
                   (Pricing.total_length item) (Pricing.quantity item)
                   (Pricing.area item))
      else None
  | None => None
  end.

Definition option_list {A : Type} (o : option A) : list A :=
  match o with
  | Some a => [a]
  | None => []
  end.

End Batch.

(** * Properties *)

(** ** Cost aggregator *)

Section PricingFacts.
Import Pricing.
Open Scope R_scope.

Variables cost_per_meter cost_per_square_meter : R.

(** What the loop has appended and added after the items [data], from
    any state. *)
Lemma price_item_fold (data : list Item) (rows : list Row) (g : R) :
  exists rows',
    fold_left (price_item cost_per_meter cost_per_square_meter) data (rows, g)
    = (rows ++ rows', fold_left (fun acc r => acc + total r) rows' g)
    /\ map row_item rows' = data
    /\ Forall (fun r =>
         cutting_cost r
         = (total_length (row_item r) / 1000) * cost_per_meter
           * IZR (quantity (row_item r))
         /\ material_cost r
            = area (row_item r) * cost_per_square_meter
              * IZR (quantity (row_item r))
         /\ total r = cutting_cost r + material_cost r) rows'.
Proof.
  revert rows g.
  induction data as [|item data IH]; intros rows g.
  - exists []. rewrite app_nil_r. repeat split; constructor.
  - cbn [fold_left].
    destruct (price_item cost_per_meter cost_per_square_meter (rows, g) item)
      as [rows1 g1] eqn:Hstep.
    destruct (IH rows1 g1) as [rows' [Hfold [Hmap Hall]]].
    unfold price_item in Hstep. injection Hstep as <- <-.
    match type of Hfold with
    | context [rows ++ [?r]] => exists (r :: rows')
    end.
    rewrite Hfold, <- app_assoc. cbn [app fold_left total].
    split; [reflexivity|].
    split; [cbn; now rewrite Hmap|].
    constructor; [cbn; auto | exact Hall].
Qed.

End PricingFacts.

(** C1. For every sequence of rows and every pair of rates, the pricing
    loop produces one priced row per input row, in the same order, with
    [cutting_cost = (total_length / 1000) * cost_per_meter * quantity],
    [material_cost = area * cost_per_square_meter * quantity] and
    [total = cutting_cost + material_cost]; and [grand_total] is the sum of
    the rows' totals accumulated from [0] from left to right. *)
Theorem price_rows_and_grand_total
    (data : list Pricing.Item) (cost_per_meter cost_per_square_meter : R) :
  let rows := fst (Pricing.price data cost_per_meter cost_per_square_meter) in
  let grand_total :=
    snd (Pricing.price data cost_per_meter cost_per_square_meter) in
  map Pricing.row_item rows = data
  /\ Forall (fun r =>
       Pricing.cutting_cost r
       = (Pricing.total_length (Pricing.row_item r) / 1000 * cost_per_meter
          * IZR (Pricing.quantity (Pricing.row_item r)))%R
       /\ Pricing.material_cost r
          = (Pricing.area (Pricing.row_item r) * cost_per_square_meter
             * IZR (Pricing.quantity (Pricing.row_item r)))%R
       /\ Pricing.total r
          = (Pricing.cutting_cost r + Pricing.material_cost r)%R) rows
  /\ grand_total = fold_left (fun acc r => (acc + Pricing.total r)%R) rows 0%R.
Proof.
  unfold Pricing.price.
  destruct (price_item_fold cost_per_meter cost_per_square_meter data [] 0%R)
    as [rows' [Hfold [Hmap Hall]]].
  rewrite Hfold. cbn [fst snd app]. auto.
Qed.

(** ** Filename quantity resolver *)

Section ResolverFacts.
Import PyStr Resolver.
Open Scope Z_scope.



(** The stem is the name or a prefix of it. *)
Lemma splitext_stem (pf : platform) (p : pystr) :
  exists n, fst (os_path_splitext pf p) = firstn n p.
Proof.
  destruct pf; unfold os_path_splitext, genericpath_splitext;
    match goal with
    | |- context [if ?c then _ else _] => destruct c
    end; cbn [fst]; unfold slice_to.
  - eexists; reflexivity.
  - exists (List.length p). now rewrite firstn_all.
  - eexists; reflexivity.
  - exists (List.length p). now rewrite firstn_all.
Qed.



Lemma digit_value_range (a : ascii) :
  is_decimal_char a = true -> 0 <= digit_value a <= 9.
Proof.
  unfold is_decimal_char, digit_value. intros H.
  apply andb_true_iff in H as [H1 H2]. lia.
Qed.

Lemma decimal_fold_nonneg (s : pystr) (acc : Z) :
  forallb is_decimal_char s = true -> 0 <= acc ->
  acc <= fold_left (fun acc a => 10 * acc + digit_value a) s acc.
Proof.
  revert acc. induction s as [|a s IH]; intros acc H Hacc; cbn [fold_left].
  - lia.
  - cbn [forallb] in H. apply andb_true_iff in H as [Ha Hs].
    pose proof (digit_value_range a Ha).
    specialize (IH (10 * acc + digit_value a) Hs). lia.
Qed.

Lemma decimal_value_nonneg (s : pystr) :
  isdecimal s = true -> 0 <= decimal_value s.
Proof.
  intros H. unfold decimal_value. apply decimal_fold_nonneg; [|lia].
  destruct s; [discriminate | exact H].
Qed.





End ResolverFacts.




(** C4, at the filename ["part_².dxf"] (the superscript two, U+00B2): the
    trailing segment is not composed of decimal digits, so the contract
    gives [1]; the program lets it past [isdigit] and [int] raises
    [ValueError]. *)
Theorem extract_quantity_superscript_raises (pf : PyStr.platform) :
  let filename :=
    (PyStr.str "part_" ++ ["178"%char] ++ PyStr.str ".dxf")%list in
  Resolver.extract_quantity_from_filename pf filename = Raise ValueError
  /\ Resolver.resolve_quantity_spec pf filename = 1%Z.
Proof.
  destruct pf; vm_compute; split; reflexivity.
Qed.

(** The examples of the specification. *)
Example resolve_examples :
  Resolver.extract_quantity_from_filename PyStr.Nt (PyStr.str "panel_12.ext")
  = Ok 12%Z
  /\ Resolver.extract_quantity_from_filename PyStr.Nt (PyStr.str "panel.ext")
     = Ok 1%Z
  /\ Resolver.extract_quantity_from_filename PyStr.Nt (PyStr.str "panel_abc.ext")
     = Ok 1%Z
  /\ Resolver.extract_quantity_from_filename PyStr.Nt (PyStr.str "panel_12_7.ext")
     = Ok 7%Z
  /\ Resolver.extract_quantity_from_filename PyStr.Posix (PyStr.str "part_007")
     = Ok 7%Z.
Proof. vm_compute. repeat split. Qed.

(** ** Geometry kernel *)

Section GeometryFacts.
Import Geometry.
Open Scope R_scope.

Lemma hypot_0_0 : hypot 0 0 = 0.
Proof.
  unfold hypot. replace (0 * 0 + 0 * 0) with 0 by ring. apply sqrt_0.
Qed.

Lemma dist_same (p : Point) : dist p p = 0.
Proof.
  unfold dist. rewrite !Rminus_diag. apply hypot_0_0.
Qed.

(** The loop adds the consecutive distances to its accumulator, in
    order. *)
Lemma segments_length_sum (points : list Point) (acc : R) :
  segments_length acc points
  = fold_left Rplus (consecutive_distances points) acc.
Proof.
  revert acc. induction points as [|p rest IH]; intros acc; [reflexivity|].
  destruct rest as [|q rest]; [reflexivity|].
  change (segments_length acc (p :: q :: rest))
    with (segments_length (acc + dist p q) (q :: rest)).
  change (consecutive_distances (p :: q :: rest))
    with (dist p q :: consecutive_distances (q :: rest)).
  rewrite IH. reflexivity.
Qed.

(** An open path: the consecutive distances and nothing else. *)
Lemma polyline_length_open (entity : Entity) (points : list Point) :
  get_points entity = Some points ->
  closed entity = Some false ->
  calculate_polyline_length entity = Ok (Rsum (consecutive_distances points)).
Proof.
  intros Hp Hc. unfold calculate_polyline_length.
  rewrite Hp, Hc. cbn [attr bind]. now rewrite segments_length_sum.
Qed.

(** A closed path with a vertex: one more edge, from the last vertex to
    the first. *)
Lemma polyline_length_closed (entity : Entity) (p : Point)
    (rest : list Point) :
  get_points entity = Some (p :: rest) ->
  closed entity = Some true ->
  calculate_polyline_length entity
  = Ok (Rsum (consecutive_distances (p :: rest)) + dist (last rest p) p).
Proof.
  intros Hp Hc. unfold calculate_polyline_length.
  rewrite Hp, Hc. cbn [attr bind index_last index_first].
  now rewrite segments_length_sum.
Qed.

(** One vertex: length [0], closed or not. *)
Lemma polyline_length_single (entity : Entity) (p : Point) (c : bool) :
  get_points entity = Some [p] ->
  closed entity = Some c ->
  calculate_polyline_length entity = Ok 0.
Proof.
  intros Hp Hc. destruct c.
  - rewrite (polyline_length_closed entity p [] Hp Hc).
    cbn [consecutive_distances last]. unfold Rsum. cbn [fold_left].
    rewrite dist_same. f_equal. ring.
  - rewrite (polyline_length_open entity [p] Hp Hc). reflexivity.
Qed.

(** No vertex, open: length [0]. *)
Lemma polyline_length_empty_open (entity : Entity) :
  get_points entity = Some [] ->
  closed entity = Some false ->
  calculate_polyline_length entity = Ok 0.
Proof.
  intros Hp Hc. rewrite (polyline_length_open entity [] Hp Hc). reflexivity.
Qed.

Lemma arc_length_sweep (entity : Entity) (r sa ea : R) :
  dxf_radius entity = Some r ->
  dxf_start_angle entity = Some sa ->
  dxf_end_angle entity = Some ea ->
  calculate_arc_length entity = Ok (r * sweep_angle sa ea).
Proof.
  intros Hr Hs He. unfold calculate_arc_length.
  rewrite Hr, Hs, He. reflexivity.
Qed.

Lemma radians_diff (sa ea : R) :
  radians ea - radians sa = (ea - sa) * (PI / 180).
Proof. unfold radians. ring. Qed.

End GeometryFacts.

(** C5, at the closed path without vertices: the length function raises
    [IndexError] at [points[-1]] where the claim has length [0].  The
    [try] of [calculate_total_length] catches it, and the total is [0]. *)
Theorem polyline_closed_empty_raises :
  Geometry.calculate_polyline_length (Geometry.LwPolyline [] true)
  = Raise IndexError
  /\ Measurer.calculate_total_length [Geometry.LwPolyline [] true] = 0%R.
Proof.
  split; reflexivity.
Qed.

Section GeometryClaims.
Import Geometry Measurer.
Open Scope R_scope.

(** C2, as stated, fails: the program adds [2 * PI] only to a negative
    difference and does not reduce the angles, so the arc of radius [1]
    from 0 to 360 degrees (a full turn) has length [2 * PI]: no sweep of
    [[0, 2 * PI)] times the radius gives it. *)
Lemma arc_sweep_full_turn :
  ~ (exists sweep : R,
       calculate_arc_length (Arc (0, 0) 1 0 360) = Ok (1 * sweep)
       /\ 0 <= sweep < 2 * PI).
Proof.
  intros [sweep [H Hrange]].
  rewrite (arc_length_sweep (Arc (0, 0) 1 0 360) 1 0 360
             eq_refl eq_refl eq_refl) in H.
  injection H as H.
  unfold sweep_angle in H. rewrite radians_diff in H.
  pose proof PI_RGT_0.
  destruct (Rlt_dec _ _) in H; lra.
Qed.

(** Likewise two turns, from 0 to 720 degrees, have length [4 * PI], and
    the arc from 720 to 0 degrees has the negative length [- 2 * PI]. *)
Example arc_sweep_two_turns :
  calculate_arc_length (Arc (0, 0) 1 0 720) = Ok (1 * (4 * PI))
  /\ calculate_arc_length (Arc (0, 0) 1 720 0) = Ok (1 * (- 2 * PI)).
Proof.
  pose proof PI_RGT_0.
  split.
  - rewrite (arc_length_sweep (Arc (0, 0) 1 0 720) 1 0 720
               eq_refl eq_refl eq_refl).
    unfold sweep_angle. rewrite radians_diff.
    destruct (Rlt_dec _ _); [lra|]. do 2 f_equal. lra.
  - rewrite (arc_length_sweep (Arc (0, 0) 1 720 0) 1 720 0
               eq_refl eq_refl eq_refl).
    unfold sweep_angle. rewrite radians_diff.
    destruct (Rlt_dec _ _); [|lra]. do 2 f_equal. lra.
Qed.

(** C2, amended. For every arc the length is the radius times the sweep,
    where the sweep is the difference of the end and start angles in
    radians, with [2 * PI] added when that difference is negative; when the
    end angle minus the start angle is at least -360 and less than 360
    degrees (as it is for angles of [[0, 360)]) the sweep is in
    [[0, 2 * PI)]; and an arc with equal start and end angles has sweep
    [0]. *)
Theorem arc_length_sweep_range (entity : Entity) (r sa ea : R) :
  dxf_radius entity = Some r ->
  dxf_start_angle entity = Some sa ->
  dxf_end_angle entity = Some ea ->
  let d := (radians ea - radians sa) in
  let sweep := sweep_angle sa ea in
  calculate_arc_length entity = Ok (r * sweep)
  /\ (d < 0 -> sweep = d + 2 * PI)
  /\ (0 <= d -> sweep = d)
  /\ (-360 <= ea - sa < 360 -> 0 <= sweep < 2 * PI)
  /\ (sa = ea -> sweep = 0).
Proof.
  intros Hr Hs He d sweep.
  split; [now apply arc_length_sweep|].
  subst d sweep. unfold sweep_angle.
  rewrite radians_diff.
  pose proof PI_RGT_0 as Hpi.
  assert (Hk : (0 < PI / 180)) by lra.
  assert (H2pi : (2 * PI = 360 * (PI / 180))) by lra.
  repeat split.
  - intros Hd. destruct (Rlt_dec _ _); lra.
  - intros Hd. destruct (Rlt_dec _ _); lra.
  - destruct (Rlt_dec _ _); nra.
  - destruct (Rlt_dec _ _); nra.
  - intros ->. rewrite Rminus_diag, Rmult_0_l.
    destruct (Rlt_dec _ _); lra.
Qed.

Lemma arc_length_sweep_range_witness :
  exists sweep : R,
    calculate_arc_length (Arc (0, 0) 2 350 10)
    = Ok (2 * sweep)
    /\ (0 <= sweep < 2 * PI).
Proof.
  destruct (arc_length_sweep_range (Arc (0, 0) 2 350 10)
              2 350 10 eq_refl eq_refl eq_refl)
    as [Hlen [_ [_ [Hrange _]]]].
  exists (sweep_angle 350 10).
  split; [exact Hlen | apply Hrange; lra].
Defined.

(** C8. For every circle of radius [r >= 0] and centre [(cx, cy)], the
    length is [2 * PI * r], the extent is the four points
    [(cx - r, cy)], [(cx + r, cy)], [(cx, cy - r)], [(cx, cy + r)], and the
    bounding box of these points runs from [cx - r] to [cx + r] and from
    [cy - r] to [cy + r]: its width and its height are [2 * r]. *)
Theorem circle_length_and_extent (entity : Entity)
    (cx cy r : R) :
  dxftype entity = "CIRCLE"%string ->
  dxf_center entity = Some (cx, cy) ->
  dxf_radius entity = Some r ->
  (0 <= r) ->
  calculate_circle_length entity = Ok (2 * PI * r)
  /\ entity_length entity = Ok (2 * PI * r)
  /\ get_entity_vertices entity
     = Ok [ (cx - r, cy); (cx + r, cy); (cx, cy - r); (cx, cy + r) ]
  /\ bounding_box [entity]
     = mkBounds (Some (cx - r)) (Some (cy - r))
                         (Some (cx + r)) (Some (cy + r))
  /\ ((cx + r) - (cx - r) = 2 * r)
  /\ ((cy + r) - (cy - r) = 2 * r).
Proof.
  intros Ht Hc Hr Hpos.
  assert (Hlen : calculate_circle_length entity = Ok (2 * PI * r)).
  { unfold calculate_circle_length. now rewrite Hr. }
  assert (Hv : get_entity_vertices entity
     = Ok [ (cx - r, cy); (cx + r, cy); (cx, cy - r); (cx, cy + r) ]).
  { unfold get_entity_vertices. rewrite Ht, Hc, Hr. reflexivity. }
  split; [exact Hlen|].
  split; [unfold entity_length; rewrite Ht; exact Hlen|].
  split; [exact Hv|].
  split; [|split; ring].
  unfold bounding_box, merge_entity. cbn [fold_left].
  rewrite Hv.
  cbn [fold_left merge_vertex no_bounds lower
       upper min_x min_y max_x
       max_y].
  unfold lower, upper. f_equal; f_equal.
  - rewrite (Rmin_left (cx - r) (cx + r)) by lra.
    rewrite (Rmin_left (cx - r) cx) by lra. apply Rmin_left; lra.
  - rewrite (Rmin_left cy cy) by lra.
    rewrite (Rmin_right cy (cy - r)) by lra. apply Rmin_left; lra.
  - rewrite (Rmax_right (cx - r) (cx + r)) by lra.
    rewrite (Rmax_left (cx + r) cx) by lra. apply Rmax_left; lra.
  - rewrite (Rmax_left cy cy) by lra.
    rewrite (Rmax_left cy (cy - r)) by lra. apply Rmax_right; lra.
Qed.

Lemma circle_length_and_extent_witness :
  calculate_circle_length (Circle (0, 0) 5)
  = Ok (2 * PI * 5)
  /\ bounding_box [Circle (0, 0) 5]
     = mkBounds (Some (0 - 5)) (Some (0 - 5))
                         (Some (0 + 5)) (Some (0 + 5)).
Proof.
  destruct (circle_length_and_extent (Circle (0, 0) 5) 0 0 5
              eq_refl eq_refl eq_refl ltac:(lra))
    as [Hlen [_ [_ [Hbox _]]]].
  split; [exact Hlen | exact Hbox].
Defined.

(** C9. For every arc, the extent is exactly two points, the projections
    of the start and of the end angle on the circle:
    [centre + radius * (cos a, sin a)] for [a] the start angle and the end
    angle in radians; no point between them is added. *)
Theorem arc_extent_endpoints (entity : Entity)
    (cx cy r sa ea : R) :
  dxftype entity = "ARC"%string ->
  dxf_center entity = Some (cx, cy) ->
  dxf_radius entity = Some r ->
  dxf_start_angle entity = Some sa ->
  dxf_end_angle entity = Some ea ->
  get_entity_vertices entity
  = Ok [ (cx + r * cos (radians sa),
          cy + r * sin (radians sa));
         (cx + r * cos (radians ea),
          cy + r * sin (radians ea)) ].
Proof.
  intros Ht Hc Hr Hs He.
  unfold get_entity_vertices. rewrite Ht, Hc, Hr, Hs, He.
  reflexivity.
Qed.

Lemma arc_extent_endpoints_witness :
  get_entity_vertices (Arc (0, 0) 1 0 180)
  = Ok [ (0 + 1 * cos (radians 0),
          0 + 1 * sin (radians 0));
         (0 + 1 * cos (radians 180),
          0 + 1 * sin (radians 180)) ].
Proof.
  apply (arc_extent_endpoints (Arc (0, 0) 1 0 180)
           0 0 1 0 180); reflexivity.
Defined.

(** The half circle from 0 to 180 degrees: its extent is the two points
    [(1, 0)] and [(-1, 0)], so the bounding box has height [0], while the
    point of the arc at 90 degrees is [(0, 1)]. *)
Example arc_extent_misses_top :
  bounding_box [Arc (0, 0) 1 0 180]
  = mkBounds (Some (-1)) (Some 0) (Some 1) (Some 0)
  /\ (0 + 1 * sin (radians 90) = 1).
Proof.
  assert (H0 : radians 0 = 0) by (unfold radians; lra).
  assert (H180 : radians 180 = PI) by (unfold radians; lra).
  assert (H90 : radians 90 = (PI / 2))
    by (unfold radians; lra).
  split.
  - unfold bounding_box, merge_entity. cbn [fold_left].
    change (get_entity_vertices (Arc (0, 0) 1 0 180))
      with (Ok [ (0 + 1 * cos (radians 0),
                  0 + 1 * sin (radians 0));
                 (0 + 1 * cos (radians 180),
                  0 + 1 * sin (radians 180)) ]).
    rewrite H0, H180, cos_0, sin_0, cos_PI, sin_PI.
    cbn [fold_left merge_vertex no_bounds lower
         upper min_x min_y max_x
         max_y].
    unfold lower, upper. f_equal; f_equal.
    + rewrite Rmin_right; lra.
    + rewrite Rmin_left; lra.
    + rewrite Rmax_left; lra.
    + rewrite Rmax_left; lra.
  - rewrite H90, sin_PI2. lra.
Qed.

End GeometryClaims.

(** ** Drawing measurer *)

Section MeasurerFacts.
Import Geometry Measurer.
Open Scope R_scope.

(** The loop over the entities is the loop over their extent points. *)
Lemma merge_entities_points (msp : Modelspace) (b : Bounds) :
  fold_left merge_entity msp b = fold_left merge_vertex (extent_points msp) b.
Proof.
  revert b. induction msp as [|e msp IH]; intros b; [reflexivity|].
  cbn [fold_left extent_points flat_map].
  rewrite fold_left_app, IH. unfold merge_entity.
  destruct (get_entity_vertices e); reflexivity.
Qed.

(** Once set, the four bounds are four independent running minima and
    maxima. *)
Lemma merge_vertices_set (ps : list Point) (mnx mny mxx mxy : R) :
  fold_left merge_vertex ps
    (mkBounds (Some mnx) (Some mny) (Some mxx) (Some mxy))
  = mkBounds (Some (fold_left Rmin (map fst ps) mnx))
             (Some (fold_left Rmin (map snd ps) mny))
             (Some (fold_left Rmax (map fst ps) mxx))
             (Some (fold_left Rmax (map snd ps) mxy)).
Proof.
  revert mnx mny mxx mxy.
  induction ps as [|[x y] ps IH]; intros mnx mny mxx mxy; [reflexivity|].
  cbn [fold_left map fst snd]. rewrite <- IH. reflexivity.
Qed.


Lemma total_length_app (l1 l2 : Modelspace) :
  calculate_total_length (l1 ++ l2)
  = fold_left add_entity_length l2 (calculate_total_length l1).
Proof. unfold calculate_total_length. apply fold_left_app. Qed.

Lemma bounding_box_app (l1 l2 : Modelspace) :
  bounding_box (l1 ++ l2) = fold_left merge_entity l2 (bounding_box l1).
Proof. unfold bounding_box. apply fold_left_app. Qed.

(** The invariant of the bounds, and their growth. *)
Lemma merge_vertex_ordered (b : Bounds) (p : Point) :
  ordered b -> ordered (merge_vertex b p) /\ within b (merge_vertex b p).
Proof.
  destruct p as [x y]. intros [|mnx mny mxx mxy Hx Hy];
    cbn [merge_vertex no_bounds lower upper min_x min_y max_x max_y].
  - split; constructor; lra.
  - pose proof (Rmin_l mnx x). pose proof (Rmin_l mny y).
    pose proof (Rmax_l mxx x). pose proof (Rmax_l mxy y).
    split; constructor; lra.
Qed.

Lemma within_refl (b : Bounds) : ordered b -> within b b.
Proof. intros [|]; constructor; lra. Qed.

Lemma within_trans (b1 b2 b3 : Bounds) :
  within b1 b2 -> within b2 b3 -> within b1 b3.
Proof.
  intros H12 H23. destruct H12; [constructor|].
  inversion H23; subst. constructor; lra.
Qed.

Lemma merge_vertices_ordered (ps : list Point) (b : Bounds) :
  ordered b ->
  ordered (fold_left merge_vertex ps b) /\ within b (fold_left merge_vertex ps b).
Proof.
  revert b. induction ps as [|p ps IH]; intros b Hb; cbn [fold_left].
  - split; [exact Hb | now apply within_refl].
  - destruct (merge_vertex_ordered b p Hb) as [Ho Hw].
    destruct (IH _ Ho) as [Ho' Hw'].
    split; [exact Ho' | exact (within_trans _ _ _ Hw Hw')].
Qed.

Lemma merge_entity_ordered (b : Bounds) (e : Entity) :
  ordered b -> ordered (merge_entity b e) /\ within b (merge_entity b e).
Proof.
  intros Hb. unfold merge_entity. destruct (get_entity_vertices e).
  - now apply merge_vertices_ordered.
  - split; [exact Hb | now apply within_refl].
Qed.

Lemma bounding_box_ordered (msp : Modelspace) : ordered (bounding_box msp).
Proof.
  unfold bounding_box. rewrite merge_entities_points.
  apply merge_vertices_ordered. constructor.
Qed.

Lemma bounds_area_nonneg (b : Bounds) : ordered b -> 0 <= bounds_area b.
Proof.
  intros [|mnx mny mxx mxy Hx Hy]; cbn; [lra|].
  apply Rmult_le_pos; [|lra]. apply Rmult_le_pos; lra.
Qed.

Lemma bounds_area_mono (b b' : Bounds) :
  ordered b -> ordered b' -> within b b' -> bounds_area b <= bounds_area b'.
Proof.
  intros Hb Hb' Hw. destruct Hw as [b'|].
  - now apply bounds_area_nonneg.
  - inversion Hb; subst. inversion Hb'; subst. cbn.
    apply Rmult_le_compat_r; [lra|].
    apply Rmult_le_compat; lra.
Qed.

End MeasurerFacts.

Section MeasurerClaims.
Import Geometry Measurer.
Open Scope R_scope.

(** C6. For every drawing, the area is [0] when no extent point was
    observed, and otherwise
    [(max_x - min_x) * (max_y - min_y) / 1000000], where the four bounds
    are the running minima and maxima of the coordinates of all extent
    points, started at the first point; and the drawing without primitive
    has total length [0] and area [0]. *)
Theorem bounding_box_area_formula :
  calculate_total_length [] = 0
  /\ calculate_bounding_box_area [] = 0
  /\ forall msp : Modelspace,
       calculate_bounding_box_area msp
       = match extent_points msp with
         | [] => 0
         | (x0, y0) :: ps =>
             let min_x := fold_left Rmin (map fst ps) x0 in
             let max_x := fold_left Rmax (map fst ps) x0 in
             let min_y := fold_left Rmin (map snd ps) y0 in
             let max_y := fold_left Rmax (map snd ps) y0 in
             (max_x - min_x) * (max_y - min_y) / 1000000
         end.
Proof.
  split; [reflexivity|]. split; [reflexivity|].
  intros msp. unfold calculate_bounding_box_area, bounding_box.
  rewrite merge_entities_points.
  destruct (extent_points msp) as [|[x0 y0] ps]; [reflexivity|].
  cbn [fold_left merge_vertex no_bounds min_x min_y max_x max_y].
  unfold lower at 1 2, upper at 1 2.
  rewrite merge_vertices_set. reflexivity.
Qed.



(** C10. For every drawing and every primitive appended to it, no minimum
    of the bounds increases and no maximum decreases, and the area of the
    extended drawing is at least the area of the drawing, which is at
    least [0]. *)
Theorem bounding_box_area_monotone (msp : Modelspace) (e : Entity) :
  within (bounding_box msp) (bounding_box (msp ++ [e]))
  /\ 0 <= calculate_bounding_box_area msp
     <= calculate_bounding_box_area (msp ++ [e]).
Proof.
  pose proof (bounding_box_ordered msp) as Ho.
  pose proof (bounding_box_ordered (msp ++ [e])) as Ho'.
  assert (Hw : within (bounding_box msp) (bounding_box (msp ++ [e]))).
  { rewrite bounding_box_app. cbn [fold_left].
    now apply merge_entity_ordered. }
  split; [exact Hw|].
  unfold calculate_bounding_box_area. split.
  - now apply bounds_area_nonneg.
  - now apply bounds_area_mono.
Qed.

(** The end-to-end example of the specification: a segment from [(0, 0)]
    to [(3, 4)] and a circle of radius [5] at the origin, in the file
    ["widget_3.ext"], priced at [2] per metre and [10] per square metre.
    The bounds are those of the circle: the vertices of the segment
    raise. *)
Example widget_measurement :
  let msp := [Line (0, 0) (3, 4); Circle (0, 0) 5] in
  calculate_total_length msp = 0 + 5 + 2 * PI * 5
  /\ bounding_box msp
     = mkBounds (Some (-5)) (Some (-5)) (Some 5) (Some 5)
  /\ calculate_bounding_box_area msp = 100 / 1000000
  /\ Resolver.extract_quantity_from_filename PyStr.Nt
       (PyStr.str "widget_3.ext") = Ok 3%Z
  /\ snd (Pricing.price
            [Pricing.mkItem (PyStr.str "widget_3.ext") 3
               (calculate_total_length msp)
               (calculate_bounding_box_area msp)] 2 10)
     = 0 + ((0 + 5 + 2 * PI * 5) / 1000 * 2 * 3 + 100 / 1000000 * 10 * 3).
Proof.
  intros msp.
  assert (Hlen : calculate_total_length msp = 0 + 5 + 2 * PI * 5).
  { unfold msp, calculate_total_length, add_entity_length. cbn [fold_left].
    unfold entity_length, calculate_line_length, calculate_circle_length.
    cbn [dxftype Line Circle String.eqb Ascii.eqb Bool.eqb orb attr bind
         dxf_start dxf_end dxf_radius fst snd].
    unfold hypot.
    replace ((3 - 0) * (3 - 0) + (4 - 0) * (4 - 0)) with (5 * 5) by ring.
    rewrite sqrt_square by lra. reflexivity. }
  assert (Hbox : bounding_box msp
                 = mkBounds (Some (-5)) (Some (-5)) (Some 5) (Some 5)).
  { unfold msp, bounding_box, merge_entity. cbn [fold_left].
    unfold get_entity_vertices.
    cbn [dxftype Line Circle String.eqb Ascii.eqb Bool.eqb orb attr bind
         vec3_slice dxf_start dxf_end dxf_center dxf_radius fst snd fold_left
         merge_vertex no_bounds min_x min_y max_x max_y].
    unfold lower, upper, Rmin, Rmax.
    repeat (destruct (Rle_dec _ _); try lra).
    f_equal; f_equal; lra. }
  assert (Harea : calculate_bounding_box_area msp = 100 / 1000000).
  { unfold calculate_bounding_box_area. rewrite Hbox. cbn. lra. }
  split; [exact Hlen|]. split; [exact Hbox|]. split; [exact Harea|].
  split; [vm_compute; reflexivity|].
  rewrite Hlen, Harea. reflexivity.
Qed.

End MeasurerClaims.

(** * Further properties *)

(** ** Filename quantity resolver: the search for the last occurrence *)

Section RfindFacts.
Import PyStr.
Open Scope Z_scope.

Lemma rfind_from_app (c : ascii) (s t : pystr) (i best : Z) :
  rfind_from c (s ++ t) i best
  = rfind_from c t (i + Z.of_nat (List.length s)) (rfind_from c s i best).
Proof.
  revert i best. induction s as [|a s IH]; intros i best; cbn [app rfind_from].
  - cbn. now rewrite Z.add_0_r.
  - rewrite IH. cbn [List.length]. f_equal. lia.
Qed.

Lemma rfind_from_absent (c : ascii) (t : pystr) (i best : Z) :
  ~ In c t -> rfind_from c t i best = best.
Proof.
  revert i best. induction t as [|a t IH]; intros i best Hnot; [reflexivity|].
  cbn [rfind_from]. destruct (Ascii.eqb a c) eqn:Hac.
  - apply Ascii.eqb_eq in Hac. subst. exfalso. apply Hnot. now left.
  - apply IH. intros Hin. apply Hnot. now right.
Qed.

Lemma rfind_from_range (c : ascii) (s : pystr) (i best : Z) :
  rfind_from c s i best = best
  \/ i <= rfind_from c s i best < i + Z.of_nat (List.length s).
Proof.
  revert i best. induction s as [|a s IH]; intros i best; [now left|].
  cbn [rfind_from List.length].
  destruct (IH (i + 1) (if Ascii.eqb a c then i else best)) as [H|H].
  - rewrite H. destruct (Ascii.eqb a c); [right; lia | now left].
  - right. lia.
Qed.

(** The result is [-1] or an index of the string. *)
Lemma rfind_range (c : ascii) (s : pystr) :
  -1 <= rfind c s < Z.of_nat (List.length s).
Proof.
  unfold rfind. destruct (rfind_from_range c s 0 (-1)) as [H|H]; lia.
Qed.

Lemma rfind_absent (c : ascii) (s : pystr) : ~ In c s -> rfind c s = -1.
Proof. apply rfind_from_absent. Qed.

(** A tail without [c] does not move the last occurrence. *)
Lemma rfind_app_absent (c : ascii) (s t : pystr) :
  ~ In c t -> rfind c (s ++ t) = rfind c s.
Proof.
  intros H. unfold rfind. rewrite rfind_from_app. now apply rfind_from_absent.
Qed.

(** The last occurrence is where [c] is followed by a tail without it. *)
Lemma rfind_last (c : ascii) (s t : pystr) :
  ~ In c t -> rfind c (s ++ c :: t) = Z.of_nat (List.length s).
Proof.
  intros H. unfold rfind. rewrite rfind_from_app. cbn [rfind_from].
  rewrite Ascii.eqb_refl. rewrite rfind_from_absent by exact H. lia.
Qed.

Lemma has_non_dot_found (s : pystr) (extsep : ascii) (n : nat) (i j : Z) :
  i <= j < i + Z.of_nat n ->
  char_differs s j extsep = true ->
  has_non_dot s extsep n i = true.
Proof.
  revert i. induction n as [|n IH]; intros i Hj Hdiff; [lia|].
  cbn [has_non_dot]. destruct (char_differs s i extsep) eqn:Hi; [reflexivity|].
  apply IH; [|exact Hdiff].
  assert (i <> j) by (intros ->; congruence). lia.
Qed.

Lemma decimal_char_not (c a : ascii) :
  is_decimal_char c = false -> is_decimal_char a = true -> a <> c.
Proof. intros Hc Ha ->. congruence. Qed.

Lemma decimal_chars_absent (c : ascii) (digits : pystr) :
  is_decimal_char c = false ->
  forallb is_decimal_char digits = true ->
  ~ In c digits.
Proof.
  intros Hc Hd Hin. rewrite forallb_forall in Hd.
  specialize (Hd c Hin). congruence.
Qed.

Lemma isdecimal_isdigit (s : pystr) : isdecimal s = true -> isdigit s = true.
Proof.
  destruct s as [|a s]; [discriminate|].
  unfold isdecimal, isdigit. generalize (a :: s). intros l H.
  rewrite forallb_forall in *. intros c Hc.
  unfold is_digit_char. now rewrite (H c Hc).
Qed.

End RfindFacts.

(** ** Filename quantity resolver: names of the expected format *)

Section ResolverFormat.
Import PyStr Resolver.
Open Scope Z_scope.

Lemma firstn_length_app {A : Type} (l r : list A) :
  firstn (List.length l) (l ++ r) = l.
Proof.
  rewrite firstn_app, firstn_all, Nat.sub_diag. cbn. apply app_nil_r.
Qed.

Lemma skipn_length_app {A : Type} (l r : list A) :
  skipn (List.length l) (l ++ r) = r.
Proof.
  rewrite skipn_app, skipn_all, Nat.sub_diag. reflexivity.
Qed.

(** The split of [root ++ "." ++ ext] is [(root, "." ++ ext)] when the
    extension has no dot and no separator, and the root ends in a character
    [c] that is neither, followed by characters that are no separator. *)
Lemma genericpath_splitext_split (name tail ext : pystr) (c sep extsep : ascii)
    (altsep : option ascii) :
  c <> extsep -> c <> sep -> extsep <> sep ->
  ~ In sep tail -> ~ In sep ext -> ~ In extsep ext ->
  (forall a, altsep = Some a ->
     c <> a /\ extsep <> a /\ ~ In a tail /\ ~ In a ext) ->
  genericpath_splitext ((name ++ c :: tail) ++ extsep :: ext) sep altsep extsep
  = (name ++ c :: tail, extsep :: ext).
Proof.
  intros Hce Hcs Hes Hst Hse Hee Halt.
  assert (Hrest : forall a, c <> a -> extsep <> a -> ~ In a tail -> ~ In a ext ->
            rfind a ((name ++ c :: tail) ++ extsep :: ext) = rfind a name).
  { intros a H1 H2 H3 H4. rewrite <- app_assoc. apply rfind_app_absent.
    cbn [app]. intros [Hin|Hin]; [congruence|].
    apply in_app_or in Hin as [Hin|[Hin|Hin]]; [tauto | congruence | tauto]. }
  unfold genericpath_splitext.
  rewrite (rfind_last extsep (name ++ c :: tail) ext Hee).
  rewrite (Hrest sep Hcs Hes Hst Hse).
  set (sepIndex := match altsep with
                   | Some a => Z.max (rfind sep name)
                                 (rfind a ((name ++ c :: tail) ++ extsep :: ext))
                   | None => rfind sep name
                   end).
  assert (Hsep : -1 <= sepIndex < Z.of_nat (List.length name)).
  { subst sepIndex. pose proof (rfind_range sep name).
    destruct altsep as [a|]; [|assumption].
    destruct (Halt a eq_refl) as [H1 [H2 [H3 H4]]].
    rewrite (Hrest a H1 H2 H3 H4). pose proof (rfind_range a name). lia. }
  assert (Hlen : Z.of_nat (List.length (name ++ c :: tail))
                 = Z.of_nat (List.length name) + 1 + Z.of_nat (List.length tail)).
  { rewrite length_app. cbn [List.length]. lia. }
  replace (sepIndex <? Z.of_nat (List.length (name ++ c :: tail))) with true
    by (symmetry; apply Z.ltb_lt; lia).
  rewrite (has_non_dot_found _ extsep _ _ (Z.of_nat (List.length name))).
  - cbn [andb]. unfold slice_to, slice_from. rewrite Nat2Z.id.
    now rewrite firstn_length_app, skipn_length_app.
  - lia.
  - unfold char_differs. rewrite Nat2Z.id, <- !app_assoc.
    rewrite nth_error_app2, Nat.sub_diag by lia. cbn.
    apply negb_true_iff, Ascii.eqb_neq. exact Hce.
Qed.

(** Names of the expected format ['name_quantity.ext'], with no more
    digits than [int] takes. *)
Lemma extract_name_quantity_ext (pf : platform) (name digits ext : pystr) :
  isdecimal digits = true ->
  Z.of_nat (List.length digits) <= int_max_str_digits ->
  ~ In "."%char ext -> ~ In "/"%char ext -> ~ In "\"%char ext ->
  extract_quantity_from_filename pf
    ((name ++ "_"%char :: digits) ++ "."%char :: ext)
  = Ok (decimal_value digits).
Proof.
  intros Hdec Hmax Hdot Hslash Hback.
  assert (Hall : forallb is_decimal_char digits = true).
  { destruct digits; [discriminate | exact Hdec]. }
  assert (Hno : forall a, is_decimal_char a = false -> ~ In a digits).
  { intros a Ha. now apply decimal_chars_absent. }
  assert (Hsplit : os_path_splitext pf
                     ((name ++ "_"%char :: digits) ++ "."%char :: ext)
                   = (name ++ "_"%char :: digits, "."%char :: ext)).
  { destruct pf; unfold os_path_splitext;
      apply genericpath_splitext_split;
      try discriminate; try assumption; try (apply Hno; reflexivity).
    intros a [= <-].
    repeat split; try discriminate; try assumption; apply Hno; reflexivity. }
  unfold extract_quantity_from_filename. rewrite Hsplit. cbn [fst].
  unfold rsplit1.
  rewrite (rfind_last "_"%char name digits) by (apply Hno; reflexivity).
  replace (Z.of_nat (List.length name) <? 0) with false
    by (symmetry; apply Z.ltb_ge; lia).
  unfold slice_from.
  replace (Z.to_nat (Z.of_nat (List.length name) + 1))
    with (List.length (name ++ ["_"%char])).
  2: { rewrite length_app. cbn [List.length]. lia. }
  replace (name ++ "_"%char :: digits) with ((name ++ ["_"%char]) ++ digits)
    by (now rewrite <- app_assoc).
  rewrite skipn_length_app.
  rewrite (isdecimal_isdigit digits Hdec). unfold int. rewrite Hdec.
  replace (_ <=? int_max_str_digits) with true; [reflexivity|].
  symmetry. now apply Z.leb_le.
Qed.

Lemma decimal_value_leading_zero (digits : pystr) :
  decimal_value ("0"%char :: digits) = decimal_value digits.
Proof. reflexivity. Qed.

(** A digit string that is not decimal has a superscript digit. *)
Lemma isdigit_not_isdecimal (t : pystr) :
  isdigit t = true -> isdecimal t = false ->
  exists c, In c t /\ is_superscript_digit c = true.
Proof.
  destruct t as [|a t]; [discriminate|].
  unfold isdigit, isdecimal. generalize (a :: t). clear. intros l.
  induction l as [|c l IH]; [discriminate|].
  cbn [forallb]. intros Hd Hn.
  apply andb_true_iff in Hd as [Hc Hl].
  destruct (is_decimal_char c) eqn:Hdc.
  - cbn [andb] in Hn. destruct (IH Hl Hn) as [c' [Hin Hs]].
    exists c'. split; [now right | exact Hs].
  - exists c. split; [now left|].
    unfold is_digit_char in Hc. now rewrite Hdc in Hc.
Qed.

Lemma superscript_not_decimal (c : ascii) :
  is_superscript_digit c = true -> is_decimal_char c = false.
Proof.
  unfold is_superscript_digit, is_decimal_char. intros H.
  apply orb_true_iff in H as [H|H]; [apply orb_true_iff in H as [H|H]|];
    apply Z.eqb_eq in H; rewrite H; reflexivity.
Qed.

End ResolverFormat.

Section ResolverExtras.
Import PyStr Resolver.
Open Scope Z_scope.

(** X1. A name of the expected format ['name_quantity.ext'] resolves to the
    quantity: whatever [name] is, if [digits] is a non-empty run of at
    most 4300 decimal digits [0]..[9] and [ext] has no dot, slash or
    backslash, then [name ++ "_" ++ digits ++ "." ++ ext] gives the
    decimal value of [digits]. *)
Theorem extract_expected_format (pf : platform) (name digits ext : pystr) :
  isdecimal digits = true ->
  Z.of_nat (List.length digits) <= int_max_str_digits ->
  ~ In "."%char ext -> ~ In "/"%char ext -> ~ In "\"%char ext ->
  extract_quantity_from_filename pf
    ((name ++ "_"%char :: digits) ++ "."%char :: ext)
  = Ok (decimal_value digits).
Proof. apply extract_name_quantity_ext. Qed.

Lemma extract_expected_format_witness :
  extract_quantity_from_filename Nt
    ((str "my.part_v2" ++ "_"%char :: str "040") ++ "."%char :: str "DXF")
  = Ok 40.
Proof.
  apply (extract_expected_format Nt (str "my.part_v2") (str "040") (str "DXF"));
    [reflexivity | vm_compute; discriminate | | | ];
    cbn; intros H; repeat (destruct H as [H|H]; [discriminate H|]); exact H.
Defined.

(** X2. Leading zeros do not change the resolved quantity: in a name of
    the expected format whose run of decimal digits has fewer than 4300
    digits, one more ["0"] in front of the digits gives the same
    result. *)
Theorem extract_leading_zero (pf : platform) (name digits ext : pystr) :
  isdecimal digits = true ->
  Z.of_nat (List.length digits) < int_max_str_digits ->
  ~ In "."%char ext -> ~ In "/"%char ext -> ~ In "\"%char ext ->
  extract_quantity_from_filename pf
    ((name ++ "_"%char :: "0"%char :: digits) ++ "."%char :: ext)
  = extract_quantity_from_filename pf
      ((name ++ "_"%char :: digits) ++ "."%char :: ext).
Proof.
  intros Hdec Hmax Hdot Hslash Hback.
  rewrite (extract_name_quantity_ext pf name ("0"%char :: digits) ext);
    try assumption.
  - rewrite (extract_name_quantity_ext pf name digits ext); try assumption.
    + now rewrite decimal_value_leading_zero.
    + lia.
  - destruct digits; [discriminate|]. exact Hdec.
  - cbn [List.length]. lia.
Qed.

Lemma extract_leading_zero_witness :
  extract_quantity_from_filename Posix
    ((str "part" ++ "_"%char :: "0"%char :: str "07") ++ "."%char :: str "dxf")
  = extract_quantity_from_filename Posix
      ((str "part" ++ "_"%char :: str "07") ++ "."%char :: str "dxf").
Proof.
  apply (extract_leading_zero Posix (str "part") (str "07") (str "dxf"));
    [reflexivity | vm_compute; reflexivity | | | ];
    cbn; intros H; repeat (destruct H as [H|H]; [discriminate H|]); exact H.
Defined.

(** X3. On the filenames of characters U+0000..U+00FF the resolver fails
    in one way only: it raises [ValueError], and it does so exactly when
    the stem has an underscore and the segment after the last one is a
    non-empty run of digit characters that has a superscript digit
    (U+00B2, U+00B3, U+00B9) among them or is longer than 4300
    characters. *)
Theorem extract_raises_iff (pf : platform) (filename : pystr) (e : exn) :
  extract_quantity_from_filename pf filename = Raise e
  <-> e = ValueError
      /\ exists t, trailing_segment pf filename = Some t
                   /\ isdigit t = true
                   /\ ((exists c, In c t /\ is_superscript_digit c = true)
                       \/ int_max_str_digits < Z.of_nat (List.length t)).
Proof.
  unfold extract_quantity_from_filename, trailing_segment, rsplit1.
  destruct (rfind "_" (fst (os_path_splitext pf filename)) <? 0).
  - split; [discriminate|]. intros [_ [t [H _]]]. discriminate.
  - set (t := slice_from _ _).
    destruct (isdigit t) eqn:Hdig.
    + unfold int. destruct (isdecimal t) eqn:Hdec.
      * destruct (Z.of_nat (List.length t) <=? int_max_str_digits) eqn:Hlen.
        -- split; [discriminate|].
           intros [_ [t' [[= <-] [_ [[c [Hin Hs]]|Hlong]]]]].
           ++ apply superscript_not_decimal in Hs.
              assert (Hall : forallb is_decimal_char t = true)
                by (destruct t; [discriminate | exact Hdec]).
              rewrite forallb_forall in Hall. specialize (Hall c Hin).
              congruence.
           ++ apply Z.leb_le in Hlen. lia.
        -- split.
           ++ intros [= <-]. split; [reflexivity|]. exists t.
              split; [reflexivity|]. split; [exact Hdig|].
              right. apply Z.leb_gt in Hlen. exact Hlen.
           ++ intros [-> _]. reflexivity.
      * split.
        -- intros [= <-]. split; [reflexivity|]. exists t.
           split; [reflexivity|]. split; [exact Hdig|].
           left. now apply isdigit_not_isdecimal.
        -- intros [-> _]. reflexivity.
    + split; [discriminate|].
      intros [_ [t' [[= <-] [Hd _]]]]. congruence.
Qed.

(** X4. A name without underscore resolves to [1]. *)
Theorem extract_no_underscore (pf : platform) (filename : pystr) :
  ~ In "_"%char filename ->
  extract_quantity_from_filename pf filename = Ok 1.
Proof.
  intros Hno. unfold extract_quantity_from_filename, rsplit1.
  destruct (splitext_stem pf filename) as [n ->].
  rewrite rfind_absent; [reflexivity|].
  intros Hin. apply Hno. rewrite <- (firstn_skipn n filename).
  apply in_or_app. now left.
Qed.

Lemma extract_no_underscore_witness :
  extract_quantity_from_filename Nt (str "bracket-12.v3.dxf") = Ok 1.
Proof.
  apply (extract_no_underscore Nt (str "bracket-12.v3.dxf")).
  cbn. intros H. repeat (destruct H as [H|H]; [discriminate H|]). exact H.
Defined.

End ResolverExtras.

(** ** The batch *)

Section FilterFacts.
Import PyStr Batch.
Open Scope nat_scope.

Ltac all_chars c :=
  destruct c as [[] [] [] [] [] [] [] []]; vm_compute; intros H;
  try discriminate H; auto.

Lemma lower_char_dot (c : ascii) : lower_char c = "."%char -> c = "."%char.
Proof. all_chars c. Qed.

Lemma lower_char_d (c : ascii) :
  lower_char c = "d"%char -> c = "d"%char \/ c = "D"%char.
Proof. all_chars c. Qed.

Lemma lower_char_x (c : ascii) :
  lower_char c = "x"%char -> c = "x"%char \/ c = "X"%char.
Proof. all_chars c. Qed.

Lemma lower_char_f (c : ascii) :
  lower_char c = "f"%char -> c = "f"%char \/ c = "F"%char.
Proof. all_chars c. Qed.

Lemma pystr_eqb_eq (s t : pystr) : pystr_eqb s t = true <-> s = t.
Proof.
  unfold pystr_eqb. destruct (list_eq_dec ascii_dec s t); split;
    congruence.
Qed.

Lemma endswith_iff (s suffix : pystr) :
  endswith s suffix = true <-> exists front, s = (front ++ suffix)%list.
Proof.
  unfold endswith. rewrite andb_true_iff, Nat.leb_le, pystr_eqb_eq. split.
  - intros [Hlen Heq].
    exists (firstn (List.length s - List.length suffix) s).
    pose proof (firstn_skipn (List.length s - List.length suffix) s) as Hs.
    rewrite Heq in Hs. now symmetry.
  - intros [front ->]. rewrite length_app. split; [lia|].
    replace (List.length front + List.length suffix - List.length suffix)
      with (List.length front) by lia.
    apply skipn_length_app.
Qed.

Lemma map_eq_app_inv {A B : Type} (f : A -> B) (l : list A) (r1 r2 : list B) :
  map f l = (r1 ++ r2)%list ->
  exists l1 l2, l = (l1 ++ l2)%list /\ map f l1 = r1 /\ map f l2 = r2.
Proof.
  revert l. induction r1 as [|b r1 IH]; intros l H.
  - exists [], l. auto.
  - destruct l as [|a l]; [discriminate|]. cbn in H. injection H as Hb Hl.
    destruct (IH l Hl) as [l1 [l2 [-> [H1 H2]]]].
    exists (a :: l1), l2. cbn. rewrite Hb, H1. auto.
Qed.

End FilterFacts.

Section FilterExtras.
Import PyStr Batch.
Open Scope nat_scope.

(** X5. The listing filter picks exactly the names that end in [".dxf"]
    in any mix of upper and lower case: a dot, then [d] or [D], [x] or
    [X], [f] or [F]. *)
Theorem is_dxf_iff (f : pystr) :
  is_dxf f = true
  <-> exists stem c1 c2 c3,
        f = (stem ++ ["."%char; c1; c2; c3])%list
        /\ (c1 = "d"%char \/ c1 = "D"%char)
        /\ (c2 = "x"%char \/ c2 = "X"%char)
        /\ (c3 = "f"%char \/ c3 = "F"%char).
Proof.
  unfold is_dxf. rewrite endswith_iff. unfold str_lower. split.
  - intros [front H].
    apply map_eq_app_inv in H as [stem [suf [-> [_ Hsuf]]]].
    destruct suf as [|c0 [|c1 [|c2 [|c3 [|]]]]]; try discriminate Hsuf.
    cbn in Hsuf. injection Hsuf as H0 H1 H2 H3.
    apply lower_char_dot in H0. subst c0.
    exists stem, c1, c2, c3. split; [reflexivity|].
    split; [now apply lower_char_d|].
    split; [now apply lower_char_x | now apply lower_char_f].
  - intros [stem [c1 [c2 [c3 [-> [H1 [H2 H3]]]]]]].
    exists (map lower_char stem). rewrite map_app. f_equal.
    destruct H1 as [-> | ->], H2 as [-> | ->], H3 as [-> | ->]; reflexivity.
Qed.

End FilterExtras.

Section BatchFacts.
Import PyStr Resolver Geometry Measurer Batch.
Open Scope nat_scope.

(** One iteration, on a file the filter lets through. *)
Lemma process_file_step (pf : platform) (st : State) (f : File) :
  is_dxf (file_name f) = true ->
  process_file pf st f
  = mkState (data st ++ option_list (file_item pf f))
            (images st ++ option_list (file_image pf f))
            (processed_files st + List.length (option_list (file_item pf f))).
Proof.
  intros Hdxf. unfold process_file, file_image, file_item. rewrite Hdxf.
  destruct (measure_file pf f) as [[item|]|e]; cbn [option_list List.length].
  - destruct (file_renders f); cbn [option_list];
      rewrite ?app_nil_r; f_equal; lia.
  - rewrite !app_nil_r, Nat.add_0_r. now destruct st.
  - rewrite !app_nil_r, Nat.add_0_r. now destruct st.
Qed.

Lemma file_not_dxf (pf : platform) (f : File) :
  is_dxf (file_name f) = false ->
  file_item pf f = None /\ file_image pf f = None.
Proof.
  intros Hdxf. unfold file_image, file_item. now rewrite Hdxf.
Qed.

(** The loop, from any state: the rows and images of the files are
    appended in order, and the counter counts the rows. *)
Lemma process_files_fold (pf : platform) (fs : list File) (st : State) :
  fold_left (process_file pf) (filter (fun f => is_dxf (file_name f)) fs) st
  = mkState
      (data st ++ flat_map (fun f => option_list (file_item pf f)) fs)
      (images st ++ flat_map (fun f => option_list (file_image pf f)) fs)
      (processed_files st
       + List.length (flat_map (fun f => option_list (file_item pf f)) fs)).
Proof.
  revert st. induction fs as [|f fs IH]; intros st.
  - cbn. rewrite !app_nil_r, Nat.add_0_r. now destruct st.
  - cbn [filter flat_map]. destruct (is_dxf (file_name f)) eqn:Hdxf.
    + cbn [fold_left]. rewrite IH, (process_file_step pf st f Hdxf).
      cbn [data images processed_files].
      rewrite <- !app_assoc, length_app. f_equal. lia.
    + destruct (file_not_dxf pf f Hdxf) as [-> ->]. cbn [option_list app].
      apply IH.
Qed.

Lemma process_files_state (pf : platform) (listing : list File) :
  process_files pf listing
  = mkState
      (flat_map (fun f => option_list (file_item pf f)) listing)
      (flat_map (fun f => option_list (file_image pf f)) listing)
      (List.length (flat_map (fun f => option_list (file_item pf f)) listing)).
Proof. unfold process_files. now rewrite process_files_fold. Qed.

(** What it takes for a file to give a row. *)
Lemma file_item_some (pf : platform) (f : File) (item : Pricing.Item) :
  file_item pf f = Some item
  <-> is_dxf (file_name f) = true
      /\ exists msp q,
           file_doc f = Ok msp /\ msp <> []
           /\ extract_quantity_from_filename pf (file_name f) = Ok q
           /\ item = Pricing.mkItem (file_name f) q
                       (calculate_total_length msp)
                       (calculate_bounding_box_area msp).
Proof.
  unfold file_item, measure_file.
  destruct (is_dxf (file_name f)).
  2: { split; [discriminate | intros [H _]; discriminate]. }
  destruct (file_doc f) as [msp|e]; cbn [bind].
  2: { split; [discriminate | intros [_ [m [q [H _]]]]; discriminate]. }
  destruct msp as [|e0 msp]; cbn [List.length Nat.eqb].
  { split; [discriminate|]. intros [_ [m [q [[= <-] [H _]]]]]. congruence. }
  destruct (extract_quantity_from_filename pf (file_name f)) as [q|e];
    cbn [bind].
  - split.
    + intros [= <-]. split; [reflexivity|]. exists (e0 :: msp), q.
      repeat split. discriminate.
    + intros [_ [m [q' [[= <-] [_ [[= <-] ->]]]]]]. reflexivity.
  - split; [discriminate|]. intros [_ [m [q [_ [_ [H _]]]]]]. discriminate.
Qed.

(** A returned quantity is never negative. *)
Lemma extract_quantity_ok_nonneg (pf : platform) (filename : pystr) (q : Z) :
  extract_quantity_from_filename pf filename = Ok q -> (0 <= q)%Z.
Proof.
  unfold extract_quantity_from_filename, rsplit1.
  destruct (_ <? 0)%Z; [intros [= <-]; lia|].
  destruct (isdigit _); [|intros [= <-]; lia].
  unfold int. destruct (isdecimal _) eqn:Hdec; [|discriminate].
  destruct (_ <=? int_max_str_digits)%Z; [|discriminate].
  intros [= <-]. now apply decimal_value_nonneg.
Qed.

End BatchFacts.

Section BatchExtras.
Import PyStr Resolver Geometry Measurer Batch.
Open Scope nat_scope.

(** X6. The rows of a batch are, in the order of the listing, one row for
    each file whose name passes the filter, that is read without error,
    has at least one entity and whose quantity resolves; the row carries
    the name, that quantity, and the total length and area of the
    modelspace.  The counter of processed files is the number of rows. *)
Theorem process_files_rows (pf : platform) (listing : list File) :
  let st := process_files pf listing in
  map Pricing.filename (data st)
  = map file_name
      (filter (fun f => match file_item pf f with
                        | Some _ => true
                        | None => false
                        end) listing)
  /\ processed_files st = List.length (data st)
  /\ forall item,
       In item (data st)
       <-> exists f msp q,
             In f listing
             /\ is_dxf (file_name f) = true
             /\ file_doc f = Ok msp /\ msp <> []
             /\ extract_quantity_from_filename pf (file_name f) = Ok q
             /\ item = Pricing.mkItem (file_name f) q
                         (calculate_total_length msp)
                         (calculate_bounding_box_area msp).
Proof.
  intros st. subst st. rewrite process_files_state.
  cbn [data processed_files]. split; [|split; [reflexivity|]].
  - induction listing as [|f fs IH]; [reflexivity|].
    cbn [flat_map filter].
    destruct (file_item pf f) as [item|] eqn:Hitem; cbn [option_list app map].
    + rewrite IH. f_equal. apply file_item_some in Hitem.
      destruct Hitem as [_ [msp [q [_ [_ [_ ->]]]]]]. reflexivity.
    + exact IH.
  - intros item. rewrite in_flat_map. split.
    + intros [f [Hf Hin]].
      destruct (file_item pf f) as [item'|] eqn:Hitem; [|contradiction].
      destruct Hin as [<-|[]].
      apply file_item_some in Hitem as [Hdxf [msp [q [H1 [H2 [H3 H4]]]]]].
      exists f, msp, q. auto 10.
    + intros [f [msp [q [Hf [Hdxf [H1 [H2 [H3 H4]]]]]]]].
      exists f. split; [exact Hf|].
      assert (Hitem : file_item pf f = Some item).
      { apply file_item_some. split; [exact Hdxf|]. exists msp, q. auto. }
      rewrite Hitem. now left.
Qed.

(** X7. A file that gives no row (its name does not pass the filter, or
    reading it raises, or its modelspace is empty, or resolving its
    quantity raises) leaves the batch as it is without that file: rows,
    images and counter of the other files are not affected. *)
Theorem process_files_skips (pf : platform) (l1 l2 : list File) (f : File) :
  is_dxf (file_name f) = false
  \/ (exists e, file_doc f = Raise e)
  \/ file_doc f = Ok []
  \/ (exists e, extract_quantity_from_filename pf (file_name f) = Raise e) ->
  process_files pf (l1 ++ f :: l2) = process_files pf (l1 ++ l2).
Proof.
  intros H.
  assert (Hitem : file_item pf f = None).
  { destruct (file_item pf f) as [item|] eqn:Hitem; [|reflexivity].
    apply file_item_some in Hitem as [Hdxf [msp [q [H1 [H2 [H3 _]]]]]].
    destruct H as [H|[[e H]|[H|[e H]]]]; congruence. }
  rewrite !process_files_state, !flat_map_app. cbn [flat_map].
  unfold file_image. rewrite Hitem. reflexivity.
Qed.

Lemma process_files_skips_witness :
  let good := mkFile (str "plate_2.dxf") (Ok [Circle (0, 0) 1]%R) true in
  let bad := mkFile (str "broken_3.dxf") (Raise ValueError) true in
  process_files Nt ([good] ++ bad :: [good])
  = process_files Nt ([good] ++ [good]).
Proof.
  intros good bad.
  apply (process_files_skips Nt [good] [good] bad).
  right. left. exists ValueError. reflexivity.
Defined.

(** X8. Every element of [images] repeats a row of [data]: the same
    filename, quantity, total length and area; its image is named after
    the stem of the file, with [".jpg"]; and there are at most as many
    images as rows. *)
Theorem images_repeat_rows (pf : platform) (listing : list File) :
  let st := process_files pf listing in
  (forall img,
     In img (images st) ->
     In (Pricing.mkItem (img_filename img) (img_quantity img)
           (img_total_length img) (img_area img)) (data st)
     /\ img_image_filename img
        = (fst (os_path_splitext pf (img_filename img)) ++ str ".jpg")%list)
  /\ List.length (images st) <= List.length (data st).
Proof.
  intros st. subst st. rewrite process_files_state. cbn [data images]. split.
  - intros img Hin. apply in_flat_map in Hin as [f [Hf Hin]].
    unfold file_image in Hin.
    destruct (file_item pf f) as [item|] eqn:Hitem; [|contradiction].
    destruct (file_renders f); [|contradiction].
    destruct Hin as [<-|[]]. cbn. split; [|reflexivity].
    apply in_flat_map. exists f. split; [exact Hf|]. rewrite Hitem.
    left. apply file_item_some in Hitem as [_ [msp [q [_ [_ [_ ->]]]]]].
    reflexivity.
  - induction listing as [|f fs IH]; [cbn; lia|].
    cbn [flat_map]. rewrite !length_app. unfold file_image at 1.
    destruct (file_item pf f); [|cbn; lia].
    destruct (file_renders f); cbn; lia.
Qed.

(** X9. [create_pdf] is called exactly when some file that gives a row
    also renders; and the table it then computes has one priced row for
    each row of [data], in order, with or without image. *)
Theorem report_made_iff (pf : platform) (listing : list File)
    (cost_per_meter cost_per_square_meter : R) :
  (report pf listing cost_per_meter cost_per_square_meter = None
   <-> forall f, In f listing -> file_item pf f <> None ->
                 file_renders f = false)
  /\ forall rows grand_total,
       report pf listing cost_per_meter cost_per_square_meter
       = Some (rows, grand_total) ->
       map Pricing.row_item rows = data (process_files pf listing)
       /\ List.length rows = processed_files (process_files pf listing).
Proof.
  unfold report. rewrite process_files_state. cbn [data images processed_files].
  split.
  - split.
    + intros Hnone f Hf Hitem.
      destruct (file_renders f) eqn:Hr; [|reflexivity]. exfalso.
      assert (Hin : exists img, In img
                (flat_map (fun f => option_list (file_image pf f)) listing)).
      { destruct (file_image pf f) as [img|] eqn:Himg.
        - exists img. apply in_flat_map. exists f. split; [exact Hf|].
          rewrite Himg. now left.
        - unfold file_image in Himg. rewrite Hr in Himg.
          destruct (file_item pf f); [discriminate | congruence]. }
      destruct Hin as [img Hin].
      destruct (flat_map _ listing); [contradiction | discriminate].
    + intros Hall.
      destruct (flat_map (fun f => option_list (file_image pf f)) listing)
        as [|img imgs] eqn:Himgs; [reflexivity|]. exfalso.
      assert (Hin : In img
                (flat_map (fun f => option_list (file_image pf f)) listing))
        by (rewrite Himgs; now left).
      apply in_flat_map in Hin as [f [Hf Hin]].
      unfold file_image in Hin.
      destruct (file_item pf f) as [item|] eqn:Hitem; [|contradiction].
      assert (Hr : file_renders f = false) by (apply Hall; congruence).
      rewrite Hr in Hin. contradiction.
  - intros rows grand_total.
    destruct (flat_map (fun f => option_list (file_image pf f)) listing);
      [discriminate|].
    intros [= Hprice]. unfold Pricing.price in Hprice.
    destruct (price_item_fold cost_per_meter cost_per_square_meter
                (flat_map (fun f => option_list (file_item pf f)) listing)
                [] 0%R) as [rows' [Hfold [Hmap _]]].
    rewrite Hfold in Hprice. injection Hprice as <- _. cbn [app].
    split; [exact Hmap|]. rewrite <- Hmap. now rewrite length_map.
Qed.

(** X10. No row of a batch has a negative quantity or a negative area. *)
Theorem rows_nonnegative (pf : platform) (listing : list File)
    (item : Pricing.Item) :
  In item (data (process_files pf listing)) ->
  (0 <= Pricing.quantity item)%Z /\ (0 <= Pricing.area item)%R.
Proof.
  rewrite process_files_state. cbn [data]. intros Hin.
  apply in_flat_map in Hin as [f [_ Hin]].
  destruct (file_item pf f) as [item'|] eqn:Hitem; [|contradiction].
  destruct Hin as [<-|[]].
  apply file_item_some in Hitem as [_ [msp [q [_ [_ [Hq ->]]]]]].
  cbn [Pricing.quantity Pricing.area]. split.
  - exact (extract_quantity_ok_nonneg pf _ q Hq).
  - apply bounds_area_nonneg, bounding_box_ordered.
Qed.

Lemma rows_nonnegative_witness :
  let listing := [mkFile (str "plate_0.dxf") (Ok [Circle (0, 0) 1]%R) false] in
  let item := Pricing.mkItem (str "plate_0.dxf") 0
                (calculate_total_length [Circle (0, 0) 1]%R)
                (calculate_bounding_box_area [Circle (0, 0) 1]%R) in
  (0 <= Pricing.quantity item)%Z /\ (0 <= Pricing.area item)%R.
Proof.
  intros listing item.
  apply (rows_nonnegative Nt listing item).
  rewrite process_files_state. cbn [data].
  left. reflexivity.
Defined.

End BatchExtras.

(** ** Geometry kernel: distances and paths *)

Section PathFacts.
Import Geometry.
Open Scope R_scope.

Lemma hypot_nonneg (x y : R) : 0 <= hypot x y.
Proof. unfold hypot. apply sqrt_pos. Qed.

Lemma hypot_opp (x y : R) : hypot (- x) (- y) = hypot x y.
Proof. unfold hypot. f_equal. ring. Qed.

Lemma hypot_zero (x y : R) : hypot x y = 0 <-> x = 0 /\ y = 0.
Proof.
  unfold hypot. split.
  - intros H. apply sqrt_eq_0 in H; [|nra]. split; nra.
  - intros [-> ->]. replace (0 * 0 + 0 * 0) with 0 by ring. apply sqrt_0.
Qed.

Lemma dist_sym (p q : Point) : dist p q = dist q p.
Proof.
  unfold dist. rewrite <- hypot_opp. f_equal; ring.
Qed.

Lemma dist_nonneg (p q : Point) : 0 <= dist p q.
Proof. apply hypot_nonneg. Qed.

Lemma dist_zero (p q : Point) :
  dist p q = 0 <-> fst p = fst q /\ snd p = snd q.
Proof.
  unfold dist. rewrite hypot_zero. lra.
Qed.

Lemma fold_Rplus_acc (l : list R) (acc : R) :
  fold_left Rplus l acc = acc + Rsum l.
Proof.
  unfold Rsum. revert acc. induction l as [|a l IH]; intros acc; cbn [fold_left].
  - ring.
  - rewrite IH, (IH (0 + a)). ring.
Qed.

Lemma Rsum_app (l1 l2 : list R) : Rsum (l1 ++ l2) = Rsum l1 + Rsum l2.
Proof.
  unfold Rsum at 1. rewrite fold_left_app, fold_Rplus_acc. reflexivity.
Qed.

Lemma Rsum_cons (a : R) (l : list R) : Rsum (a :: l) = a + Rsum l.
Proof. change (a :: l) with ([a] ++ l). rewrite Rsum_app. unfold Rsum at 1. cbn. ring. Qed.

Lemma Rsum_nonneg (l : list R) : Forall (fun a => 0 <= a) l -> 0 <= Rsum l.
Proof.
  induction 1 as [|a l Ha _ IH]; [unfold Rsum; cbn; lra|].
  rewrite Rsum_cons. lra.
Qed.

Lemma consecutive_distances_nonneg (points : list Point) :
  Forall (fun a => 0 <= a) (consecutive_distances points).
Proof.
  induction points as [|p rest IH]; [constructor|].
  destruct rest as [|q rest]; [constructor|].
  change (consecutive_distances (p :: q :: rest))
    with (dist p q :: consecutive_distances (q :: rest)).
  constructor; [apply dist_nonneg | exact IH].
Qed.

(** A path through [v] is the path up to [v] followed by the path from
    [v]. *)
Lemma consecutive_distances_app (ps qs : list Point) (v : Point) :
  consecutive_distances (ps ++ v :: qs)
  = consecutive_distances (ps ++ [v]) ++ consecutive_distances (v :: qs).
Proof.
  induction ps as [|p ps IH]; [reflexivity|].
  destruct ps as [|p' ps].
  - cbn [app].
    change (consecutive_distances (p :: v :: qs))
      with (dist p v :: consecutive_distances (v :: qs)).
    reflexivity.
  - cbn [app] in *.
    change (consecutive_distances (p :: p' :: ps ++ v :: qs))
      with (dist p p' :: consecutive_distances (p' :: ps ++ v :: qs)).
    change (consecutive_distances (p :: p' :: ps ++ [v]))
      with (dist p p' :: consecutive_distances (p' :: ps ++ [v])).
    rewrite IH. reflexivity.
Qed.

Lemma consecutive_distances_snoc (ps : list Point) (q p : Point) :
  consecutive_distances ((ps ++ [q]) ++ [p])
  = consecutive_distances (ps ++ [q]) ++ [dist q p].
Proof.
  rewrite <- app_assoc. cbn [app]. rewrite consecutive_distances_app.
  reflexivity.
Qed.

Lemma path_length_rev (points : list Point) :
  Rsum (consecutive_distances (rev points))
  = Rsum (consecutive_distances points).
Proof.
  induction points as [|p rest IH]; [reflexivity|].
  destruct rest as [|q rest]; [reflexivity|].
  change (consecutive_distances (p :: q :: rest))
    with (dist p q :: consecutive_distances (q :: rest)).
  rewrite Rsum_cons, <- IH.
  change (rev (p :: q :: rest)) with ((rev rest ++ [q]) ++ [p]).
  change (rev (q :: rest)) with (rev rest ++ [q]).
  rewrite consecutive_distances_snoc, Rsum_app.
  unfold Rsum at 2. cbn [fold_left]. rewrite (dist_sym q p). ring.
Qed.

(** The length of a closed path with a vertex, by its first and last
    vertex. *)
Lemma polyline_length_closed_ends (entity : Entity) (points : list Point)
    (d : Point) :
  points <> [] ->
  get_points entity = Some points ->
  closed entity = Some true ->
  calculate_polyline_length entity
  = Ok (Rsum (consecutive_distances points)
        + dist (last points d) (hd d points)).
Proof.
  intros Hne Hp Hc. destruct points as [|p rest]; [congruence|].
  rewrite (polyline_length_closed entity p rest Hp Hc). cbn [hd].
  do 2 f_equal. destruct rest as [|q rest]; [reflexivity|].
  cbn [last]. clear. revert q. induction rest as [|a rest IH]; intros q.
  - reflexivity.
  - cbn [last]. apply IH.
Qed.

Lemma last_rev_hd {A : Type} (l : list A) (d : A) : last (rev l) d = hd d l.
Proof.
  destruct l as [|a l]; [reflexivity|]. cbn [rev hd]. apply last_last.
Qed.

Lemma hd_rev {A : Type} (l : list A) (d : A) : hd d (rev l) = last l d.
Proof.
  rewrite <- (rev_involutive l) at 2. now rewrite last_rev_hd.
Qed.

End PathFacts.

Section PathExtras.
Import Geometry.
Open Scope R_scope.

(** X11. The length of a line is the distance between its start and end
    points: it is the same with start and end swapped, it is never
    negative, and it is [0] exactly when the two points have the same [x]
    and the same [y]. *)
Theorem line_length_symmetric (s t : Point) :
  calculate_line_length (Line s t) = Ok (dist s t)
  /\ calculate_line_length (Line t s) = calculate_line_length (Line s t)
  /\ 0 <= dist s t
  /\ (dist s t = 0 <-> fst s = fst t /\ snd s = snd t).
Proof.
  split; [reflexivity|].
  split.
  - unfold calculate_line_length. cbn [Line dxf_start dxf_end attr bind].
    f_equal. apply (dist_sym t s).
  - split; [apply dist_nonneg | apply dist_zero].
Qed.

(** X12. The length of a path: open, it is the sum of the distances
    between consecutive vertices, and so is the length of a spline over
    the points of its approximation; closed with at least one vertex, the
    distance from the last vertex back to the first is added; with one
    vertex it is [0], closed or not; and it is never negative. *)
Theorem polyline_length_cases (points rest : list Point) (p : Point)
    (c : bool) :
  calculate_polyline_length (LwPolyline points false)
  = Ok (Rsum (consecutive_distances points))
  /\ calculate_spline_length
       (mkEntity "SPLINE" None None None None None None None None
          (Some points))
     = Ok (Rsum (consecutive_distances points))
  /\ calculate_polyline_length (LwPolyline (p :: rest) true)
     = Ok (Rsum (consecutive_distances (p :: rest)) + dist (last rest p) p)
  /\ calculate_polyline_length (LwPolyline [p] c) = Ok 0
  /\ 0 <= Rsum (consecutive_distances points)
  /\ 0 <= Rsum (consecutive_distances (p :: rest)) + dist (last rest p) p.
Proof.
  split; [now apply polyline_length_open|].
  split.
  { unfold calculate_spline_length. cbn [approximate attr bind].
    now rewrite segments_length_sum. }
  split; [now apply polyline_length_closed|].
  split; [now apply (polyline_length_single _ p c)|].
  pose proof (Rsum_nonneg _ (consecutive_distances_nonneg points)).
  pose proof (Rsum_nonneg _ (consecutive_distances_nonneg (p :: rest))).
  pose proof (dist_nonneg (last rest p) p).
  split; lra.
Qed.

(** X13. Walking a path backwards does not change its length: a polyline
    and the polyline with its vertices in reverse order have the same
    length, open or closed (and the closed polyline without vertices
    raises either way). *)
Theorem polyline_length_reverse (points : list Point) (c : bool) :
  calculate_polyline_length (LwPolyline (rev points) c)
  = calculate_polyline_length (LwPolyline points c).
Proof.
  destruct c.
  - destruct points as [|p rest]; [reflexivity|].
    rewrite (polyline_length_closed_ends _ (rev (p :: rest)) p);
      [| cbn [rev]; now destruct (rev rest) | reflexivity | reflexivity].
    rewrite (polyline_length_closed_ends _ (p :: rest) p);
      [| discriminate | reflexivity | reflexivity].
    rewrite path_length_rev, last_rev_hd, hd_rev.
    now rewrite dist_sym.
  - rewrite !polyline_length_open with (points := rev points)
      by reflexivity.
    rewrite (polyline_length_open _ points) by reflexivity.
    now rewrite path_length_rev.
Qed.

(** X14. The perimeter of a closed polyline does not depend on the vertex
    it starts from: moving the first vertex to the end gives the same
    length. *)
Theorem polygon_length_rotate (p : Point) (rest : list Point) :
  calculate_polyline_length (LwPolyline (rest ++ [p]) true)
  = calculate_polyline_length (LwPolyline (p :: rest) true).
Proof.
  destruct rest as [|q rest]; [reflexivity|].
  rewrite (polyline_length_closed_ends _ ((q :: rest) ++ [p]) p);
    [| discriminate | reflexivity | reflexivity].
  rewrite (polyline_length_closed _ p (q :: rest)) by reflexivity.
  change (consecutive_distances (p :: q :: rest))
    with (dist p q :: consecutive_distances (q :: rest)).
  rewrite Rsum_cons, last_last. cbn [hd app].
  destruct (exists_last (l := q :: rest)) as [front [z Hz]]; [discriminate|].
  rewrite app_comm_cons, Hz.
  rewrite last_last, consecutive_distances_snoc, Rsum_app.
  unfold Rsum at 2. cbn [fold_left]. f_equal. ring.
Qed.

(** X15. The length of an open path through a vertex [v] is the length of
    the path up to [v] plus the length of the path from [v]. *)
Theorem polyline_length_split (ps qs : list Point) (v : Point) :
  exists a b : R,
    calculate_polyline_length (LwPolyline (ps ++ [v]) false) = Ok a
    /\ calculate_polyline_length (LwPolyline (v :: qs) false) = Ok b
    /\ calculate_polyline_length (LwPolyline (ps ++ v :: qs) false)
       = Ok (a + b).
Proof.
  exists (Rsum (consecutive_distances (ps ++ [v]))),
         (Rsum (consecutive_distances (v :: qs))).
  split; [now apply polyline_length_open|].
  split; [now apply polyline_length_open|].
  rewrite (polyline_length_open _ (ps ++ v :: qs)) by reflexivity.
  now rewrite consecutive_distances_app, Rsum_app.
Qed.

End PathExtras.

(** ** Geometry kernel: circles and arcs *)

Section ArcFacts.
Import Geometry Measurer.
Open Scope R_scope.

Lemma hypot_scaled (r a : R) : hypot (r * cos a) (r * sin a) = Rabs r.
Proof.
  unfold hypot.
  replace (r * cos a * (r * cos a) + r * sin a * (r * sin a))
    with (Rsqr r * (Rsqr (sin a) + Rsqr (cos a))) by (unfold Rsqr; ring).
  rewrite sin2_cos2, Rmult_1_r. apply sqrt_Rsqr_abs.
Qed.

Lemma hypot_axis_x (r : R) : hypot r 0 = Rabs r.
Proof.
  unfold hypot. replace (r * r + 0 * 0) with (Rsqr r) by (unfold Rsqr; ring).
  apply sqrt_Rsqr_abs.
Qed.

Lemma hypot_axis_y (r : R) : hypot 0 r = Rabs r.
Proof.
  unfold hypot. replace (0 * 0 + r * r) with (Rsqr r) by (unfold Rsqr; ring).
  apply sqrt_Rsqr_abs.
Qed.

(** The bounds of one circle. *)
Lemma circle_bounds (cx cy r : R) :
  0 <= r ->
  bounding_box [Circle (cx, cy) r]
  = mkBounds (Some (cx - r)) (Some (cy - r)) (Some (cx + r)) (Some (cy + r)).
Proof.
  intros Hr. unfold bounding_box, merge_entity. cbn [fold_left].
  unfold get_entity_vertices.
  cbn [dxftype Circle String.eqb Ascii.eqb Bool.eqb orb attr bind
       dxf_center dxf_radius fst snd fold_left
       merge_vertex no_bounds min_x min_y max_x max_y].
  unfold lower, upper, Rmin, Rmax.
  repeat (destruct (Rle_dec _ _); try lra); f_equal; f_equal; lra.
Qed.

(** The bounds of one arc. *)
Lemma arc_bounds (cx cy r sa ea : R) :
  bounding_box [Arc (cx, cy) r sa ea]
  = mkBounds
      (Some (Rmin (cx + r * cos (radians sa)) (cx + r * cos (radians ea))))
      (Some (Rmin (cy + r * sin (radians sa)) (cy + r * sin (radians ea))))
      (Some (Rmax (cx + r * cos (radians sa)) (cx + r * cos (radians ea))))
      (Some (Rmax (cy + r * sin (radians sa)) (cy + r * sin (radians ea)))).
Proof. reflexivity. Qed.

(** Under a non-negative radius, and an end angle not more than a turn
    below the start angle, no length is negative. *)
Lemma entity_length_nonneg (e : Entity) (l : R) :
  (forall r, dxf_radius e = Some r -> 0 <= r) ->
  (forall sa ea, dxf_start_angle e = Some sa -> dxf_end_angle e = Some ea ->
                 -360 <= ea - sa) ->
  entity_length e = Ok l -> 0 <= l.
Proof.
  intros Hr Ha. unfold entity_length.
  destruct (String.eqb (dxftype e) "LINE").
  { unfold calculate_line_length.
    destruct (dxf_start e), (dxf_end e); cbn; try discriminate.
    intros [= <-]. apply hypot_nonneg. }
  destruct (String.eqb (dxftype e) "LWPOLYLINE"
            || String.eqb (dxftype e) "POLYLINE")%bool.
  { unfold calculate_polyline_length.
    destruct (get_points e) as [pts|]; cbn [attr bind]; [|discriminate].
    pose proof (Rsum_nonneg _ (consecutive_distances_nonneg pts)) as Hsum.
    rewrite segments_length_sum, fold_Rplus_acc.
    revert Hsum. generalize (Rsum (consecutive_distances pts)). intros S Hsum.
    destruct (closed e) as [[|]|]; cbn [attr bind]; try discriminate.
    - destruct pts as [|p rest]; cbn [index_last index_first bind];
        [discriminate|].
      intros [= <-].
      apply Rplus_le_le_0_compat; [lra | apply hypot_nonneg].
    - intros [= <-]. lra. }
  destruct (String.eqb (dxftype e) "CIRCLE").
  { unfold calculate_circle_length.
    destruct (dxf_radius e) as [r|]; cbn [attr bind]; [|discriminate].
    intros [= <-]. specialize (Hr r eq_refl). pose proof PI_RGT_0. nra. }
  destruct (String.eqb (dxftype e) "ARC").
  { unfold calculate_arc_length.
    destruct (dxf_radius e) as [r|]; cbn [attr bind]; [|discriminate].
    destruct (dxf_start_angle e) as [sa|]; cbn [attr bind]; [|discriminate].
    destruct (dxf_end_angle e) as [ea|]; cbn [attr bind]; [|discriminate].
    intros [= <-]. specialize (Hr r eq_refl). specialize (Ha sa ea eq_refl eq_refl).
    rewrite radians_diff. pose proof PI_RGT_0.
    apply Rmult_le_pos; [exact Hr|].
    destruct (Rlt_dec _ _); nra. }
  destruct (String.eqb (dxftype e) "SPLINE").
  { unfold calculate_spline_length.
    destruct (approximate e) as [pts|]; cbn [attr bind]; [|discriminate].
    intros [= <-].
    pose proof (Rsum_nonneg _ (consecutive_distances_nonneg pts)).
    rewrite segments_length_sum, fold_Rplus_acc. lra. }
  intros [= <-]. lra.
Qed.

End ArcFacts.

Section ArcExtras.
Import Geometry Measurer.
Open Scope R_scope.

(** X16. An arc and the arc that runs back from its end angle to its
    start angle make up the circle: when the two angles differ, the two
    lengths add up to the length of the circle of the same radius. *)
Theorem arc_complement_length (c : Point) (r sa ea : R) :
  sa <> ea ->
  exists a b : R,
    calculate_arc_length (Arc c r sa ea) = Ok a
    /\ calculate_arc_length (Arc c r ea sa) = Ok b
    /\ calculate_circle_length (Circle c r) = Ok (a + b).
Proof.
  intros Hne.
  exists (r * sweep_angle sa ea), (r * sweep_angle ea sa).
  split; [now apply arc_length_sweep|].
  split; [now apply arc_length_sweep|].
  unfold calculate_circle_length. cbn [Circle dxf_radius attr bind]. f_equal.
  unfold sweep_angle. rewrite !radians_diff.
  pose proof PI_RGT_0.
  assert (Hk : 0 < PI / 180) by lra.
  assert (Hd : (ea - sa) * (PI / 180) <> 0) by (intros H0; nra).
  destruct (Rlt_dec ((ea - sa) * (PI / 180)) 0),
           (Rlt_dec ((sa - ea) * (PI / 180)) 0); nra.
Qed.

Lemma arc_complement_length_witness :
  exists a b : R,
    calculate_arc_length (Arc (0, 0) 2 30 120) = Ok a
    /\ calculate_arc_length (Arc (0, 0) 2 120 30) = Ok b
    /\ calculate_circle_length (Circle (0, 0) 2) = Ok (a + b).
Proof.
  apply (arc_complement_length (0, 0) 2 30 120). lra.
Defined.

(** X17. When every radius is non-negative and no arc has an end angle
    more than a turn below its start angle, the total length is not
    negative and does not decrease as the loop goes through the drawing:
    the total of a prefix is at most the total of the whole. *)
Theorem total_length_nonneg (msp rest : Modelspace) :
  (forall e, In e (msp ++ rest) ->
     (forall r, dxf_radius e = Some r -> 0 <= r)
     /\ (forall sa ea, dxf_start_angle e = Some sa ->
                       dxf_end_angle e = Some ea -> -360 <= ea - sa)) ->
  0 <= calculate_total_length msp <= calculate_total_length (msp ++ rest).
Proof.
  intros Hok.
  assert (Hstep : forall l t, (forall e, In e l -> In e (msp ++ rest)) ->
            t <= fold_left add_entity_length l t).
  { induction l as [|e l IH]; intros t Hin; cbn [fold_left]; [lra|].
    apply Rle_trans with (add_entity_length t e).
    - unfold add_entity_length.
      destruct (entity_length e) as [len|] eqn:Hlen; [|lra].
      destruct (Hok e (Hin e (or_introl eq_refl))) as [Hr Ha].
      pose proof (entity_length_nonneg e len Hr Ha Hlen). lra.
    - apply IH. intros e' He'. apply Hin. now right. }
  split.
  - apply Hstep. intros e He. apply in_or_app. now left.
  - rewrite total_length_app. apply Hstep.
    intros e He. apply in_or_app. now right.
Qed.

Lemma total_length_nonneg_witness :
  0 <= calculate_total_length [Circle (0, 0) 1]
  <= calculate_total_length ([Circle (0, 0) 1] ++ [Arc (0, 0) 1 350 10]).
Proof.
  apply (total_length_nonneg [Circle (0, 0) 1] [Arc (0, 0) 1 350 10]).
  intros e [<-|[<-|[]]]; split; cbn; intros; try discriminate.
  - injection H as <-. lra.
  - injection H as <-. lra.
  - injection H as <-. injection H0 as <-. lra.
Defined.

(** X18. The extent points of a circle and of an arc lie on the circle:
    each is at distance [|radius|] from the centre. *)
Theorem extent_points_on_circle (c : Point) (r sa ea : R) :
  (exists vs, get_entity_vertices (Circle c r) = Ok vs
              /\ Forall (fun p => dist c p = Rabs r) vs)
  /\ (exists vs, get_entity_vertices (Arc c r sa ea) = Ok vs
                 /\ Forall (fun p => dist c p = Rabs r) vs).
Proof.
  destruct c as [cx cy]. split.
  - eexists. split; [reflexivity|].
    repeat constructor; unfold dist; cbn [fst snd].
    + transitivity (hypot (- r) 0); [f_equal; ring|].
      rewrite hypot_axis_x. apply Rabs_Ropp.
    + transitivity (hypot r 0); [f_equal; ring | apply hypot_axis_x].
    + transitivity (hypot 0 (- r)); [f_equal; ring|].
      rewrite hypot_axis_y. apply Rabs_Ropp.
    + transitivity (hypot 0 r); [f_equal; ring | apply hypot_axis_y].
  - eexists. split; [reflexivity|].
    repeat constructor; unfold dist; cbn [fst snd].
    + transitivity (hypot (r * cos (radians sa)) (r * sin (radians sa)));
        [f_equal; ring | apply hypot_scaled].
    + transitivity (hypot (r * cos (radians ea)) (r * sin (radians ea)));
        [f_equal; ring | apply hypot_scaled].
Qed.

(** X19. The box of an arc never leaves the box of its full circle: for a
    non-negative radius the bounds of the arc are within the bounds of the
    circle with the same centre and radius, and its area is at most that
    of the circle. *)
Theorem arc_box_within_circle_box (c : Point) (r sa ea : R) :
  0 <= r ->
  within (bounding_box [Arc c r sa ea]) (bounding_box [Circle c r])
  /\ calculate_bounding_box_area [Arc c r sa ea]
     <= calculate_bounding_box_area [Circle c r].
Proof.
  intros Hr. destruct c as [cx cy].
  assert (Hw : within (bounding_box [Arc (cx, cy) r sa ea])
                      (bounding_box [Circle (cx, cy) r])).
  { rewrite circle_bounds by exact Hr. rewrite arc_bounds.
    pose proof (COS_bound (radians sa)) as [? ?].
    pose proof (COS_bound (radians ea)) as [? ?].
    pose proof (SIN_bound (radians sa)) as [? ?].
    pose proof (SIN_bound (radians ea)) as [? ?].
    constructor; unfold Rmin, Rmax; destruct (Rle_dec _ _); nra. }
  split; [exact Hw|].
  unfold calculate_bounding_box_area.
  apply bounds_area_mono; [apply bounding_box_ordered.. | exact Hw].
Qed.

Lemma arc_box_within_circle_box_witness :
  calculate_bounding_box_area [Arc (1, 2) 3 0 180]
  <= calculate_bounding_box_area [Circle (1, 2) 3].
Proof.
  apply (arc_box_within_circle_box (1, 2) 3 0 180). lra.
Defined.

End ArcExtras.

(** ** Drawing measurer: the box and its points *)

Section BoxFacts.
Import Geometry Measurer.
Open Scope R_scope.

Lemma fold_Rmin_le (l : list R) (a : R) :
  fold_left Rmin l a <= a /\ Forall (fun v => fold_left Rmin l a <= v) l.
Proof.
  revert a. induction l as [|v l IH]; intros a; cbn [fold_left].
  - split; [lra | constructor].
  - destruct (IH (Rmin a v)) as [H1 H2].
    pose proof (Rmin_l a v). pose proof (Rmin_r a v).
    split; [lra|]. constructor; [lra | exact H2].
Qed.

Lemma fold_Rmax_ge (l : list R) (a : R) :
  a <= fold_left Rmax l a /\ Forall (fun v => v <= fold_left Rmax l a) l.
Proof.
  revert a. induction l as [|v l IH]; intros a; cbn [fold_left].
  - split; [lra | constructor].
  - destruct (IH (Rmax a v)) as [H1 H2].
    pose proof (Rmax_l a v). pose proof (Rmax_r a v).
    split; [lra|]. constructor; [lra | exact H2].
Qed.

Lemma fold_Rmin_attained (l : list R) (a : R) :
  fold_left Rmin l a = a \/ In (fold_left Rmin l a) l.
Proof.
  revert a. induction l as [|v l IH]; intros a; cbn [fold_left]; [now left|].
  destruct (IH (Rmin a v)) as [H|H]; [|right; now right].
  rewrite H. unfold Rmin. destruct (Rle_dec a v); [now left | right; now left].
Qed.

Lemma fold_Rmax_attained (l : list R) (a : R) :
  fold_left Rmax l a = a \/ In (fold_left Rmax l a) l.
Proof.
  revert a. induction l as [|v l IH]; intros a; cbn [fold_left]; [now left|].
  destruct (IH (Rmax a v)) as [H|H]; [|right; now right].
  rewrite H. unfold Rmax. destruct (Rle_dec a v); [right; now left | now left].
Qed.

(** The bounds of a drawing by its extent points. *)
Lemma bounding_box_of_points (msp : Modelspace) :
  bounding_box msp
  = match extent_points msp with
    | [] => no_bounds
    | (x0, y0) :: ps =>
        mkBounds (Some (fold_left Rmin (map fst ps) x0))
                 (Some (fold_left Rmin (map snd ps) y0))
                 (Some (fold_left Rmax (map fst ps) x0))
                 (Some (fold_left Rmax (map snd ps) y0))
    end.
Proof.
  unfold bounding_box. rewrite merge_entities_points.
  destruct (extent_points msp) as [|[x0 y0] ps]; [reflexivity|].
  cbn [fold_left merge_vertex no_bounds min_x min_y max_x max_y].
  unfold lower at 1 2, upper at 1 2. apply merge_vertices_set.
Qed.

(** Every extent point is inside the bounds. *)
Lemma extent_point_inside (msp : Modelspace) (p : Point) :
  In p (extent_points msp) ->
  exists mnx mny mxx mxy,
    bounding_box msp
    = mkBounds (Some mnx) (Some mny) (Some mxx) (Some mxy)
    /\ mnx <= fst p <= mxx /\ mny <= snd p <= mxy.
Proof.
  rewrite bounding_box_of_points.
  destruct (extent_points msp) as [|[x0 y0] ps]; [contradiction|].
  intros Hin. do 4 eexists. split; [reflexivity|].
  destruct (fold_Rmin_le (map fst ps) x0) as [Hx1 Hx2].
  destruct (fold_Rmin_le (map snd ps) y0) as [Hy1 Hy2].
  destruct (fold_Rmax_ge (map fst ps) x0) as [Hx3 Hx4].
  destruct (fold_Rmax_ge (map snd ps) y0) as [Hy3 Hy4].
  destruct Hin as [<-|Hin]; [cbn [fst snd]; lra|].
  rewrite Forall_forall in Hx2, Hy2, Hx4, Hy4.
  pose proof (in_map fst _ _ Hin) as Hfst.
  pose proof (in_map snd _ _ Hin) as Hsnd.
  specialize (Hx2 _ Hfst). specialize (Hx4 _ Hfst).
  specialize (Hy2 _ Hsnd). specialize (Hy4 _ Hsnd). lra.
Qed.

(** Every bound is a coordinate of some extent point. *)
Lemma bounds_attained (msp : Modelspace) (mnx mny mxx mxy : R) :
  bounding_box msp = mkBounds (Some mnx) (Some mny) (Some mxx) (Some mxy) ->
  (exists p, In p (extent_points msp) /\ fst p = mnx)
  /\ (exists p, In p (extent_points msp) /\ snd p = mny)
  /\ (exists p, In p (extent_points msp) /\ fst p = mxx)
  /\ (exists p, In p (extent_points msp) /\ snd p = mxy).
Proof.
  rewrite bounding_box_of_points.
  destruct (extent_points msp) as [|[x0 y0] ps]; [discriminate|].
  intros [= <- <- <- <-].
  assert (Hf : forall v, v = x0 \/ In v (map fst ps) ->
            exists p, In p ((x0, y0) :: ps) /\ fst p = v).
  { intros v [->|Hin]; [exists (x0, y0); split; [now left | reflexivity]|].
    apply in_map_iff in Hin as [p [<- Hp]]. exists p. split; [now right | reflexivity]. }
  assert (Hs : forall v, v = y0 \/ In v (map snd ps) ->
            exists p, In p ((x0, y0) :: ps) /\ snd p = v).
  { intros v [->|Hin]; [exists (x0, y0); split; [now left | reflexivity]|].
    apply in_map_iff in Hin as [p [<- Hp]]. exists p. split; [now right | reflexivity]. }
  repeat split.
  - apply Hf, fold_Rmin_attained.
  - apply Hs, fold_Rmin_attained.
  - apply Hf, fold_Rmax_attained.
  - apply Hs, fold_Rmax_attained.
Qed.

Lemma lower_comm (m : option R) (x y : R) :
  lower (lower m x) y = lower (lower m y) x.
Proof.
  unfold lower. f_equal. destruct m as [m|]; unfold Rmin;
    repeat (destruct (Rle_dec _ _)); lra.
Qed.

Lemma upper_comm (m : option R) (x y : R) :
  upper (upper m x) y = upper (upper m y) x.
Proof.
  unfold upper. f_equal. destruct m as [m|]; unfold Rmax;
    repeat (destruct (Rle_dec _ _)); lra.
Qed.

Lemma merge_vertex_comm (b : Bounds) (p q : Point) :
  merge_vertex (merge_vertex b p) q = merge_vertex (merge_vertex b q) p.
Proof.
  destruct p as [x y], q as [x' y'].
  cbn [merge_vertex min_x min_y max_x max_y].
  f_equal; apply lower_comm || apply upper_comm.
Qed.

(** The bounds do not depend on the order of the points. *)
Lemma merge_vertices_perm (ps qs : list Point) :
  Permutation ps qs ->
  forall b, fold_left merge_vertex ps b = fold_left merge_vertex qs b.
Proof.
  induction 1 as [|p ps qs _ IH|p q ps|ps qs rs _ IH1 _ IH2]; intros b.
  - reflexivity.
  - cbn [fold_left]. apply IH.
  - cbn [fold_left]. now rewrite merge_vertex_comm.
  - now rewrite IH1.
Qed.

Lemma bounding_box_perm (msp msp' : Modelspace) :
  Permutation msp msp' -> bounding_box msp = bounding_box msp'.
Proof.
  intros H. unfold bounding_box. rewrite !merge_entities_points.
  apply merge_vertices_perm. unfold extent_points.
  now apply Permutation_flat_map.
Qed.

(** A point inside the bounds leaves them as they are. *)
Lemma merge_vertex_inside (mnx mny mxx mxy : R) (p : Point) :
  mnx <= fst p <= mxx -> mny <= snd p <= mxy ->
  merge_vertex (mkBounds (Some mnx) (Some mny) (Some mxx) (Some mxy)) p
  = mkBounds (Some mnx) (Some mny) (Some mxx) (Some mxy).
Proof.
  destruct p as [x y]. cbn [fst snd]. intros Hx Hy.
  cbn [merge_vertex min_x min_y max_x max_y]. unfold lower, upper.
  rewrite !Rmin_left, !Rmax_left by lra. reflexivity.
Qed.

Lemma merge_vertices_inside (ps : list Point) (mnx mny mxx mxy : R) :
  Forall (fun p => mnx <= fst p <= mxx /\ mny <= snd p <= mxy) ps ->
  fold_left merge_vertex ps
    (mkBounds (Some mnx) (Some mny) (Some mxx) (Some mxy))
  = mkBounds (Some mnx) (Some mny) (Some mxx) (Some mxy).
Proof.
  induction 1 as [|p ps [Hx Hy] _ IH]; [reflexivity|].
  cbn [fold_left]. now rewrite merge_vertex_inside.
Qed.

(** The bounds only widen along the loop. *)
Lemma bounding_box_prefix (l1 l2 : Modelspace) :
  within (bounding_box l1) (bounding_box (l1 ++ l2)).
Proof.
  rewrite bounding_box_app.
  pose proof (bounding_box_ordered l1) as Ho. revert Ho.
  generalize (bounding_box l1). induction l2 as [|e l2 IH]; intros b Hb.
  - now apply within_refl.
  - cbn [fold_left]. destruct (merge_entity_ordered b e Hb) as [Ho Hw].
    exact (within_trans _ _ _ Hw (IH _ Ho)).
Qed.

Lemma fold_add_entity_length (l : Modelspace) (t : R) :
  fold_left add_entity_length l t = t + calculate_total_length l.
Proof.
  unfold calculate_total_length. revert t.
  induction l as [|e l IH]; intros t; cbn [fold_left]; [ring|].
  rewrite IH, (IH (add_entity_length 0 e)). unfold add_entity_length.
  destruct (entity_length e); ring.
Qed.

End BoxFacts.

Section BoxExtras.
Import Geometry Measurer.
Open Scope R_scope.

(** X20. The bounds contain the drawing's extent: every vertex that
    [get_entity_vertices] returns for an entity of the drawing lies
    between [min_x] and [max_x] and between [min_y] and [max_y]. *)
Theorem bounding_box_contains (msp : Modelspace) (e : Entity)
    (vertices : list Point) (p : Point) :
  In e msp ->
  get_entity_vertices e = Ok vertices ->
  In p vertices ->
  exists mnx mny mxx mxy,
    bounding_box msp
    = mkBounds (Some mnx) (Some mny) (Some mxx) (Some mxy)
    /\ mnx <= fst p <= mxx /\ mny <= snd p <= mxy.
Proof.
  intros He Hv Hp. apply extent_point_inside.
  unfold extent_points. apply in_flat_map. exists e.
  split; [exact He|]. now rewrite Hv.
Qed.

Lemma bounding_box_contains_witness :
  exists mnx mny mxx mxy,
    bounding_box [Circle (0, 0) 5; LwPolyline [(0, 0); (30, 40)] false]
    = mkBounds (Some mnx) (Some mny) (Some mxx) (Some mxy)
    /\ mnx <= fst (30, 40) <= mxx /\ mny <= snd (30, 40) <= mxy.
Proof.
  apply (bounding_box_contains
           [Circle (0, 0) 5; LwPolyline [(0, 0); (30, 40)] false]
           (LwPolyline [(0, 0); (30, 40)] false) [(0, 0); (30, 40)] (30, 40)).
  - right. left. reflexivity.
  - reflexivity.
  - right. left. reflexivity.
Defined.

(** X21. The bounds are tight: when they are set, each of [min_x],
    [min_y], [max_x], [max_y] is the coordinate of some extent point of
    the drawing. *)
Theorem bounding_box_tight (msp : Modelspace) (mnx mny mxx mxy : R) :
  bounding_box msp = mkBounds (Some mnx) (Some mny) (Some mxx) (Some mxy) ->
  (exists p, In p (extent_points msp) /\ fst p = mnx)
  /\ (exists p, In p (extent_points msp) /\ snd p = mny)
  /\ (exists p, In p (extent_points msp) /\ fst p = mxx)
  /\ (exists p, In p (extent_points msp) /\ snd p = mxy).
Proof. apply bounds_attained. Qed.

Lemma bounding_box_tight_witness :
  exists p, In p (extent_points [Circle (0, 0) 5]) /\ fst p = 0 - 5.
Proof.
  apply (bounding_box_tight [Circle (0, 0) 5] (0 - 5) (0 - 5) (0 + 5) (0 + 5)).
  apply circle_bounds. lra.
Defined.

(** X22. The bounds and the area do not depend on the order of the
    entities: two drawings with the same entities in a different order
    have the same bounds and the same area. *)
Theorem bounding_box_order_independent (msp msp' : Modelspace) :
  Permutation msp msp' ->
  bounding_box msp = bounding_box msp'
  /\ calculate_bounding_box_area msp = calculate_bounding_box_area msp'.
Proof.
  intros H. pose proof (bounding_box_perm msp msp' H) as Hb.
  split; [exact Hb|]. unfold calculate_bounding_box_area. now rewrite Hb.
Qed.

Lemma bounding_box_order_independent_witness :
  calculate_bounding_box_area [Circle (0, 0) 5; Line (0, 0) (3, 4)]
  = calculate_bounding_box_area [Line (0, 0) (3, 4); Circle (0, 0) 5].
Proof.
  apply (bounding_box_order_independent
           [Circle (0, 0) 5; Line (0, 0) (3, 4)]
           [Line (0, 0) (3, 4); Circle (0, 0) 5]).
  apply perm_swap.
Defined.

(** X23. An entity that is already in the drawing adds nothing to the
    bounds: appending it again leaves the bounds and the area as they
    are. *)
Theorem bounding_box_duplicate (msp : Modelspace) (e : Entity) :
  In e msp ->
  bounding_box (msp ++ [e]) = bounding_box msp
  /\ calculate_bounding_box_area (msp ++ [e]) = calculate_bounding_box_area msp.
Proof.
  intros He.
  assert (Hb : bounding_box (msp ++ [e]) = bounding_box msp).
  { rewrite bounding_box_app. cbn [fold_left]. unfold merge_entity.
    destruct (get_entity_vertices e) as [vs|] eqn:Hv; [|reflexivity].
    destruct vs as [|p0 vs]; [reflexivity|].
    assert (Hin : In p0 (extent_points msp)).
    { unfold extent_points. apply in_flat_map. exists e.
      split; [exact He|]. rewrite Hv. now left. }
    destruct (extent_point_inside msp p0 Hin)
      as [mnx [mny [mxx [mxy [Hbox _]]]]].
    rewrite Hbox. apply merge_vertices_inside.
    apply Forall_forall. intros p Hp.
    assert (Hin' : In p (extent_points msp)).
    { unfold extent_points. apply in_flat_map. exists e.
      split; [exact He|]. now rewrite Hv. }
    destruct (extent_point_inside msp p Hin')
      as [a [b [c [d [Hbox' [Hx Hy]]]]]].
    rewrite Hbox in Hbox'. injection Hbox' as <- <- <- <-. now split. }
  split; [exact Hb|]. unfold calculate_bounding_box_area. now rewrite Hb.
Qed.

Lemma bounding_box_duplicate_witness :
  calculate_bounding_box_area ([Circle (0, 0) 5] ++ [Circle (0, 0) 5])
  = calculate_bounding_box_area [Circle (0, 0) 5].
Proof.
  apply (bounding_box_duplicate [Circle (0, 0) 5] (Circle (0, 0) 5)).
  left. reflexivity.
Defined.

(** X24. A drawing whose extent points all have the same [x], or all the
    same [y], has area [0]. *)
Theorem degenerate_area (msp : Modelspace) (v : R) :
  (forall p, In p (extent_points msp) -> fst p = v)
  \/ (forall p, In p (extent_points msp) -> snd p = v) ->
  calculate_bounding_box_area msp = 0.
Proof.
  intros H. unfold calculate_bounding_box_area.
  pose proof (bounding_box_ordered msp) as Ho.
  destruct (bounding_box msp) as [a b c d] eqn:Hbox.
  inversion Ho as [|mnx mny mxx mxy Hx Hy]; subst; [reflexivity|].
  destruct (bounds_attained msp mnx mny mxx mxy Hbox)
    as [[p1 [H1 E1]] [[p2 [H2 E2]] [[p3 [H3 E3]] [p4 [H4 E4]]]]].
  cbn. destruct H as [H|H].
  - rewrite <- E1, <- E3, (H p1 H1), (H p3 H3). unfold Rdiv. ring.
  - rewrite <- E2, <- E4, (H p2 H2), (H p4 H4). unfold Rdiv. ring.
Qed.

Lemma degenerate_area_witness :
  calculate_bounding_box_area [LwPolyline [(1, 0); (1, 7); (1, 3)] false] = 0.
Proof.
  apply (degenerate_area [LwPolyline [(1, 0); (1, 7); (1, 3)] false] 1).
  left. intros p [<-|[<-|[<-|[]]]]; reflexivity.
Defined.

(** X25. The total length of two drawings put together is the sum of
    their total lengths. *)
Theorem total_length_additive (l1 l2 : Modelspace) :
  calculate_total_length (l1 ++ l2)
  = calculate_total_length l1 + calculate_total_length l2.
Proof.
  rewrite total_length_app. apply fold_add_entity_length.
Qed.

(** X26. The area of two drawings put together is at least the area of
    each of them. *)
Theorem area_of_union (l1 l2 : Modelspace) :
  calculate_bounding_box_area l1 <= calculate_bounding_box_area (l1 ++ l2)
  /\ calculate_bounding_box_area l2 <= calculate_bounding_box_area (l1 ++ l2).
Proof.
  unfold calculate_bounding_box_area. split.
  - apply bounds_area_mono;
      [apply bounding_box_ordered.. | apply bounding_box_prefix].
  - rewrite (bounding_box_perm (l1 ++ l2) (l2 ++ l1))
      by apply Permutation_app_comm.
    apply bounds_area_mono;
      [apply bounding_box_ordered.. | apply bounding_box_prefix].
Qed.

End BoxExtras.

(** ** Moving a drawing *)

Section TransformFacts.
Import Geometry Measurer Transform.
Open Scope R_scope.

Variables dx dy : R.

Lemma dist_shift (p q : Point) :
  dist (shift dx dy p) (shift dx dy q) = dist p q.
Proof. unfold dist, shift. cbn [fst snd]. f_equal; ring. Qed.

Lemma consecutive_distances_shift (points : list Point) :
  consecutive_distances (map (shift dx dy) points)
  = consecutive_distances points.
Proof.
  induction points as [|p rest IH]; [reflexivity|].
  destruct rest as [|q rest]; [reflexivity|].
  change (consecutive_distances (map (shift dx dy) (p :: q :: rest)))
    with (dist (shift dx dy p) (shift dx dy q)
          :: consecutive_distances (map (shift dx dy) (q :: rest))).
  change (consecutive_distances (p :: q :: rest))
    with (dist p q :: consecutive_distances (q :: rest)).
  now rewrite IH, dist_shift.
Qed.

Lemma last_map {A B : Type} (f : A -> B) (l : list A) (a : A) :
  last (map f l) (f a) = f (last l a).
Proof.
  revert a. induction l as [|b l IH]; intros a; [reflexivity|].
  cbn [map]. destruct l as [|c l]; [reflexivity|].
  change (last (f b :: map f (c :: l)) (f a)) with (last (map f (c :: l)) (f a)).
  change (last (b :: c :: l) a) with (last (c :: l) a). apply IH.
Qed.

Lemma polyline_length_translate (e : Entity) :
  calculate_polyline_length (translate dx dy e) = calculate_polyline_length e.
Proof.
  unfold calculate_polyline_length. cbn [translate get_points closed].
  destruct (get_points e) as [pts|]; cbn [option_map attr bind];
    [|reflexivity].
  rewrite !segments_length_sum, consecutive_distances_shift.
  destruct (closed e) as [[|]|]; cbn [attr bind]; try reflexivity.
  destruct pts as [|p rest]; [reflexivity|].
  cbn [map index_last index_first bind]. rewrite last_map.
  do 2 f_equal. apply (dist_shift (last rest p) p).
Qed.

Lemma entity_length_translate (e : Entity) :
  entity_length (translate dx dy e) = entity_length e.
Proof.
  unfold entity_length. cbn [translate dxftype].
  destruct (String.eqb (dxftype e) "LINE").
  { unfold calculate_line_length. cbn [translate dxf_start dxf_end].
    destruct (dxf_start e) as [s|], (dxf_end e) as [t|];
      cbn [option_map attr bind]; try reflexivity.
    f_equal. apply (dist_shift s t). }
  destruct (String.eqb (dxftype e) "LWPOLYLINE"
            || String.eqb (dxftype e) "POLYLINE")%bool.
  { apply polyline_length_translate. }
  destruct (String.eqb (dxftype e) "CIRCLE"); [reflexivity|].
  destruct (String.eqb (dxftype e) "ARC"); [reflexivity|].
  destruct (String.eqb (dxftype e) "SPLINE"); [|reflexivity].
  unfold calculate_spline_length. cbn [translate approximate].
  destruct (approximate e) as [pts|]; cbn [option_map attr bind];
    [|reflexivity].
  now rewrite !segments_length_sum, consecutive_distances_shift.
Qed.

Ltac points_equal :=
  apply f_equal;
  repeat match goal with
         | |- (_ :: _) = (_ :: _) => apply f_equal2
         | |- (_, _) = (_, _) => apply f_equal2
         end;
  try reflexivity; ring.

Lemma vertices_translate (e : Entity) :
  get_entity_vertices (translate dx dy e)
  = match get_entity_vertices e with
    | Ok vs => Ok (map (shift dx dy) vs)
    | Raise x => Raise x
    end.
Proof.
  unfold get_entity_vertices.
  cbn [translate dxftype dxf_start dxf_end dxf_center dxf_radius
       dxf_start_angle dxf_end_angle get_points approximate].
  destruct (String.eqb (dxftype e) "LINE").
  { destruct (dxf_start e), (dxf_end e); reflexivity. }
  destruct (String.eqb (dxftype e) "LWPOLYLINE"
            || String.eqb (dxftype e) "POLYLINE")%bool.
  { destruct (get_points e); reflexivity. }
  destruct (String.eqb (dxftype e) "CIRCLE").
  { destruct (dxf_center e) as [[cx cy]|]; cbn [option_map attr bind];
      [|reflexivity].
    destruct (dxf_radius e) as [r|]; cbn [attr bind]; [|reflexivity].
    unfold shift. cbn [map fst snd]. points_equal. }
  destruct (String.eqb (dxftype e) "ARC").
  { destruct (dxf_center e) as [[cx cy]|]; cbn [option_map attr bind];
      [|reflexivity].
    destruct (dxf_radius e) as [r|]; cbn [attr bind]; [|reflexivity].
    destruct (dxf_start_angle e) as [sa|]; cbn [attr bind]; [|reflexivity].
    destruct (dxf_end_angle e) as [ea|]; cbn [attr bind]; [|reflexivity].
    unfold shift. cbn [map fst snd]. points_equal. }
  destruct (String.eqb (dxftype e) "SPLINE"); [|reflexivity].
  destruct (approximate e); reflexivity.
Qed.

Lemma Rmin_shift (a x d : R) : Rmin (a + d) (x + d) = Rmin a x + d.
Proof. unfold Rmin. repeat (destruct (Rle_dec _ _)); lra. Qed.

Lemma Rmax_shift (a x d : R) : Rmax (a + d) (x + d) = Rmax a x + d.
Proof. unfold Rmax. repeat (destruct (Rle_dec _ _)); lra. Qed.

Lemma merge_vertex_shift (b : Bounds) (p : Point) :
  merge_vertex (shift_bounds dx dy b) (shift dx dy p)
  = shift_bounds dx dy (merge_vertex b p).
Proof.
  destruct p as [x y], b as [[a|] [b|] [c|] [d|]];
    unfold merge_vertex, shift, shift_bounds, lower, upper;
    cbn [fst snd min_x min_y max_x max_y option_map];
    rewrite ?Rmin_shift, ?Rmax_shift; reflexivity.
Qed.

Lemma merge_vertices_shift (ps : list Point) (b : Bounds) :
  fold_left merge_vertex (map (shift dx dy) ps) (shift_bounds dx dy b)
  = shift_bounds dx dy (fold_left merge_vertex ps b).
Proof.
  revert b. induction ps as [|p ps IH]; intros b; [reflexivity|].
  cbn [map fold_left]. now rewrite merge_vertex_shift, IH.
Qed.

Lemma merge_entities_translate (msp : Modelspace) (b : Bounds) :
  fold_left merge_entity (map (translate dx dy) msp) (shift_bounds dx dy b)
  = shift_bounds dx dy (fold_left merge_entity msp b).
Proof.
  revert b. induction msp as [|e msp IH]; intros b; [reflexivity|].
  cbn [map fold_left]. rewrite <- IH. f_equal.
  unfold merge_entity. rewrite vertices_translate.
  destruct (get_entity_vertices e); [apply merge_vertices_shift | reflexivity].
Qed.

Lemma bounds_area_shift (b : Bounds) :
  bounds_area (shift_bounds dx dy b) = bounds_area b.
Proof.
  destruct b as [[a|] [b|] [c|] [d|]]; cbn; try reflexivity.
  unfold Rdiv. ring.
Qed.

Lemma total_length_translate (msp : Modelspace) (t : R) :
  fold_left add_entity_length (map (translate dx dy) msp) t
  = fold_left add_entity_length msp t.
Proof.
  revert t. induction msp as [|e msp IH]; intros t; [reflexivity|].
  cbn [map fold_left]. rewrite IH. f_equal.
  unfold add_entity_length. now rewrite entity_length_translate.
Qed.

End TransformFacts.

Section TransformExtras.
Import Geometry Measurer Transform.
Open Scope R_scope.

(** X27. Moving a drawing does not change its measurement: with every
    point of every entity moved by the same [(dx, dy)], the total length
    is the same, the bounds are the bounds moved by [(dx, dy)], and the
    area is the same. *)
Theorem measurement_translation_invariant (dx dy : R) (msp : Modelspace) :
  calculate_total_length (map (translate dx dy) msp)
  = calculate_total_length msp
  /\ bounding_box (map (translate dx dy) msp)
     = shift_bounds dx dy (bounding_box msp)
  /\ calculate_bounding_box_area (map (translate dx dy) msp)
     = calculate_bounding_box_area msp.
Proof.
  assert (Hb : bounding_box (map (translate dx dy) msp)
               = shift_bounds dx dy (bounding_box msp)).
  { unfold bounding_box.
    change no_bounds with (shift_bounds dx dy no_bounds) at 1.
    apply merge_entities_translate. }
  split; [apply total_length_translate|].
  split; [exact Hb|].
  unfold calculate_bounding_box_area. rewrite Hb. apply bounds_area_shift.
Qed.

End TransformExtras.

(** ** Cost aggregator: how totals compose *)

Section PricingMore.
Import Pricing.
Open Scope R_scope.

Variables cost_per_meter cost_per_square_meter : R.

(** The loop entered in any state appends the rows and adds the grand
    total it computes from the initial state. *)
Lemma price_from_state (items : list Item) (rows : list Row) (g : R) :
  fold_left (price_item cost_per_meter cost_per_square_meter) items (rows, g)
  = (rows ++ fst (price items cost_per_meter cost_per_square_meter),
     g + snd (price items cost_per_meter cost_per_square_meter)).
Proof.
  unfold price. revert rows g.
  induction items as [|item items IH]; intros rows g.
  - cbn. rewrite app_nil_r. f_equal. ring.
  - cbn [fold_left].
    destruct (price_item cost_per_meter cost_per_square_meter (rows, g) item)
      as [rows1 g1] eqn:H1.
    destruct (price_item cost_per_meter cost_per_square_meter ([], 0) item)
      as [rows2 g2] eqn:H2.
    rewrite (IH rows1 g1), (IH rows2 g2).
    unfold price_item in H1, H2. injection H1 as <- <-. injection H2 as <- <-.
    cbn [fst snd app]. rewrite <- app_assoc. cbn [app]. f_equal. ring.
Qed.

Lemma price_cons (item : Item) (items : list Item) :
  snd (price (item :: items) cost_per_meter cost_per_square_meter)
  = total_length item / 1000 * cost_per_meter * IZR (quantity item)
    + area item * cost_per_square_meter * IZR (quantity item)
    + snd (price items cost_per_meter cost_per_square_meter).
Proof.
  unfold price at 1. cbn [fold_left].
  destruct (price_item cost_per_meter cost_per_square_meter ([], 0) item)
    as [rows1 g1] eqn:H1.
  rewrite price_from_state. unfold price_item in H1. injection H1 as <- <-.
  cbn [snd]. ring.
Qed.

End PricingMore.

Section PricingExtras.
Import Pricing.
Open Scope R_scope.

(** X28. Pricing two batches of rows one after the other is pricing them
    separately: the table of the concatenation is the two tables in a row,
    and its grand total is the sum of the two grand totals. *)
Theorem price_concat (d1 d2 : list Item)
    (cost_per_meter cost_per_square_meter : R) :
  price (d1 ++ d2) cost_per_meter cost_per_square_meter
  = (fst (price d1 cost_per_meter cost_per_square_meter)
     ++ fst (price d2 cost_per_meter cost_per_square_meter),
     snd (price d1 cost_per_meter cost_per_square_meter)
     + snd (price d2 cost_per_meter cost_per_square_meter)).
Proof.
  unfold price at 1. rewrite fold_left_app.
  fold (price d1 cost_per_meter cost_per_square_meter).
  destruct (price d1 cost_per_meter cost_per_square_meter) as [rows g].
  apply price_from_state.
Qed.

(** X29. The grand total separates the two rates: it is the rate per
    metre times the sum over the rows of [total_length / 1000 * quantity],
    plus the rate per square metre times the sum of [area * quantity]. *)
Theorem grand_total_by_rates (items : list Item)
    (cost_per_meter cost_per_square_meter : R) :
  snd (price items cost_per_meter cost_per_square_meter)
  = cost_per_meter
    * Geometry.Rsum
        (map (fun i => total_length i / 1000 * IZR (quantity i)) items)
    + cost_per_square_meter
      * Geometry.Rsum (map (fun i => area i * IZR (quantity i)) items).
Proof.
  induction items as [|item items IH].
  - unfold price, Geometry.Rsum. cbn. ring.
  - rewrite price_cons, IH. cbn [map]. rewrite !Rsum_cons. ring.
Qed.

(** X30. With rates that are not negative, rows whose quantity, total
    length and area are not negative get costs that are not negative, and
    so is the grand total. *)
Theorem costs_nonnegative (items : list Item)
    (cost_per_meter cost_per_square_meter : R) :
  0 <= cost_per_meter -> 0 <= cost_per_square_meter ->
  Forall (fun i => (0 <= quantity i)%Z /\ 0 <= total_length i /\ 0 <= area i)
    items ->
  Forall (fun r => 0 <= cutting_cost r /\ 0 <= material_cost r /\ 0 <= total r)
    (fst (price items cost_per_meter cost_per_square_meter))
  /\ 0 <= snd (price items cost_per_meter cost_per_square_meter).
Proof.
  intros Hm Hs Hitems.
  destruct (price_item_fold cost_per_meter cost_per_square_meter items [] 0)
    as [rows [Hfold [Hmap Hall]]].
  assert (Hrows : Forall (fun r => 0 <= cutting_cost r /\ 0 <= material_cost r
                                   /\ 0 <= total r) rows).
  { rewrite Forall_forall in *. intros r Hr.
    destruct (Hall r Hr) as [Hc [Hmat Ht]].
    assert (Hin : In (row_item r) items)
      by (rewrite <- Hmap; now apply in_map).
    destruct (Hitems _ Hin) as [Hq [Hl Ha]].
    apply IZR_le in Hq.
    assert (0 <= cutting_cost r).
    { rewrite Hc. apply Rmult_le_pos; [apply Rmult_le_pos|]; lra. }
    assert (0 <= material_cost r).
    { rewrite Hmat. apply Rmult_le_pos; [apply Rmult_le_pos|]; lra. }
    repeat split; lra. }
  unfold price. rewrite Hfold. cbn [fst snd app]. split; [exact Hrows|].
  clear Hfold Hmap Hall.
  assert (Hacc : forall g, 0 <= g ->
            0 <= fold_left (fun acc r => acc + total r) rows g).
  { induction Hrows as [|r rows [_ [_ Ht]] _ IH]; intros g Hg; cbn [fold_left];
      [exact Hg|]. apply IH. lra. }
  apply Hacc. lra.
Qed.

Lemma costs_nonnegative_witness :
  0 <= snd (price [mkItem (PyStr.str "plate_2.dxf") 2 1500 (1 / 4)] 2 10).
Proof.
  apply (costs_nonnegative [mkItem (PyStr.str "plate_2.dxf") 2 1500 (1 / 4)]
           2 10); [lra | lra |].
  constructor; [|constructor]. cbn. split; [lia | split; lra].
Defined.

End PricingExtras.

Section PassesApart.
Import Geometry Measurer.
Open Scope R_scope.


End PassesApart.
